(** * yavide: core/services/parser/clang_parser.py

    A shallow embedding of the C++ semantic-analysis core (translation-unit
    store, cursor traversal, node classification, dependent-construct
    resolution, reference search and the on-disk layout of saved units),
    together with the properties the specification states about it.

    Conventions of the embedding.
    - A Python [dict] is a [gmap], a Python [set] a [gset].
    - Code that can raise lives in the [result] monad; [try_except] is the
      bare [try: ... except: ...] of the source.
    - The external front-end (libclang through [clang.cindex]) is not part
      of the repository.  Its values are records holding what the front-end
      reports for a node; its operations that can fail are parameters of
      the sections that use them.
    - A Python attribute that exists only once somebody has assigned it
      ([_tu], [ast_parent]) has type [attr]: reading it while [Unset]
      raises [AttributeError]. *)

From Stdlib Require Import ZArith Ascii String List Bool Lia.
From stdpp Require Import base decidable option list strings gmap fin_maps.

Open Scope list_scope.
Open Scope stdpp_scope.

(** ** Exceptions *)

Inductive exn : Type :=
  | AttributeError
  | AssertionError
  | TranslationUnitLoadError
  | TranslationUnitSaveError
  | OSError.

Inductive result (A : Type) : Type :=
  | Ok (a : A)
  | Raise (e : exn).
Arguments Ok {A} a.
Arguments Raise {A} e.

#[global] Instance result_ret : MRet result := fun A a => Ok a.
#[global] Instance result_bind : MBind result := fun A B k m =>
  match m with
  | Ok a => k a
  | Raise e => Raise e
  end.

(** [try: body except: handler] -- a bare [except] catches everything. *)
Definition try_except {A} (body : result A) (handler : exn -> result A) : result A :=
  match body with
  | Ok a => Ok a
  | Raise e => handler e
  end.

(** [assert b] *)
Definition py_assert (b : bool) : result unit :=
  if b then Ok tt else Raise AssertionError.

Definition raises {A} (m : result A) : Prop := exists e, m = Raise e.

(** An attribute of a Python object that is absent until assigned. *)
Inductive attr (A : Type) : Type :=
  | Unset
  | Assigned (v : A).
Arguments Unset {A}.
Arguments Assigned {A} v.

Definition getattr {A} (a : attr A) : result A :=
  match a with
  | Assigned v => Ok v
  | Unset => Raise AttributeError
  end.

(** ** ChildVisitResult (lines 10-22) *)

Inductive ChildVisitResult : Type :=
  | BREAK      (* 0: terminates the cursor traversal *)
  | CONTINUE   (* 1: next sibling, children not visited *)
  | RECURSE.   (* 2: visit the children with the same visitor *)

(** ** Values reported by the front-end *)

Inductive CursorKind : Type :=
  | NAMESPACE | CLASS_DECL | CLASS_TEMPLATE | CLASS_TEMPLATE_PARTIAL_SPECIALIZATION
  | STRUCT_DECL | ENUM_DECL | ENUM_CONSTANT_DECL | UNION_DECL | FIELD_DECL
  | VAR_DECL | FUNCTION_DECL | FUNCTION_TEMPLATE | CXX_METHOD | CONSTRUCTOR
  | DESTRUCTOR | PARM_DECL | TEMPLATE_TYPE_PARAMETER
  | TEMPLATE_NON_TYPE_PARAMETER | TEMPLATE_TEMPLATE_PARAMETER
  | MACRO_DEFINITION | MACRO_INSTANTIATION | TYPEDEF_DECL | TYPE_ALIAS_DECL
  | NAMESPACE_ALIAS | USING_DIRECTIVE | USING_DECLARATION
  | OVERLOADED_DECL_REF | MEMBER_REF_EXPR | CALL_EXPR
  | OTHER_KIND (id : nat).   (* every kind the source never names *)

Inductive TypeKind : Type :=
  | DEPENDENT
  | OTHER_TYPE (id : nat).

Inductive TokenKind : Type :=
  | PUNCTUATION | KEYWORD | IDENTIFIER | LITERAL | COMMENT.

#[global] Instance CursorKind_eq_dec : EqDecision CursorKind.
Proof. solve_decision. Defined.
#[global] Instance TypeKind_eq_dec : EqDecision TypeKind.
Proof. solve_decision. Defined.
#[global] Instance TokenKind_eq_dec : EqDecision TokenKind.
Proof. solve_decision. Defined.

(** [clang.cindex.File]: the code reads only [name]. *)
Record File : Type := mkFile { file_name : string }.

(** [clang.cindex.SourceLocation]: [file] is [None] for locations that
    belong to no file. *)
Record SourceLocation : Type := mkLoc {
  loc_file : option File;
  loc_line : Z;
  loc_column : Z;
  loc_offset : Z
}.

Record SourceRange : Type := mkRange {
  range_start : SourceLocation;
  range_end : SourceLocation
}.

#[global] Instance File_eq_dec : EqDecision File.
Proof. solve_decision. Defined.
#[global] Instance SourceLocation_eq_dec : EqDecision SourceLocation.
Proof. solve_decision. Defined.
#[global] Instance SourceRange_eq_dec : EqDecision SourceRange.
Proof. solve_decision. Defined.

(** Modelled from the spec: [clang.cindex.SourceLocation.__eq__] is the
    front-end's comparison, which the repository only calls.  Section 3 of
    the specification fixes it: two locations are equal iff file, line,
    column and offset all match. *)
Definition SourceLocation_eq (a b : SourceLocation) : bool :=
  bool_decide (loc_file a = loc_file b)
  && (loc_line a =? loc_line b)%Z
  && (loc_column a =? loc_column b)%Z
  && (loc_offset a =? loc_offset b)%Z.

(** [clang.cindex.SourceRange.__eq__], likewise the front-end's: both ends
    equal. *)
Definition SourceRange_eq (a b : SourceRange) : bool :=
  SourceLocation_eq (range_start a) (range_start b)
  && SourceLocation_eq (range_end a) (range_end b).

(** ** ImmutableSourceLocation (lines 62-105) *)

Module ImmutableSourceLocation.

Record t : Type := init { source_location : SourceLocation }.

Definition file (self : t) : option File := loc_file (source_location self).
Definition line (self : t) : Z := loc_line (source_location self).
Definition column (self : t) : Z := loc_column (source_location self).
Definition offset (self : t) : Z := loc_offset (source_location self).



Section Hash.
(** Python's built-in [hash] on [str] and on [int]. *)
Variable hash_str : string -> Z.
Variable hash_int : Z -> Z.

(** [__hash__]: the xor of the hashes of file name, line, column and
    offset.  [self.source_location.file.name] raises on a location that has
    no file. *)
Definition hash (self : t) : result Z :=
  f ← match loc_file (source_location self) with
      | Some f => Ok f
      | None => Raise AttributeError
      end;
  Ok (Z.lxor (Z.lxor (Z.lxor (hash_str (file_name f))
                             (hash_int (loc_line (source_location self))))
                     (hash_int (loc_column (source_location self))))
             (hash_int (loc_offset (source_location self)))).
End Hash.

#[global] Instance t_eq_dec : EqDecision t.
Proof. solve_decision. Defined.

#[global] Instance t_countable : Countable t.
Proof.
  refine (inj_countable'
    (fun x => (file_name <$> loc_file (source_location x),
               loc_line (source_location x),
               loc_column (source_location x),
               loc_offset (source_location x)))
    (fun p => let '(f, l, c, o) := p in init (mkLoc (mkFile <$> f) l c o)) _).
  intros [[[[]|] l c o]]; reflexivity.
Defined.

End ImmutableSourceLocation.

Abbreviation ISL := ImmutableSourceLocation.t.

(** ** SemanticNodeId *)

(** Modelled from the spec: [ASTNodeId] lives in
    services/parser/ast_node_identifier.py, which is not among the sources;
    section 3 of the specification lists its members, one per
    [ASTNodeId.get...Id()] accessor that [to_ast_node_id] calls. *)
Inductive SemanticNodeId : Type :=
  | Namespace | Class | Struct | Enum | EnumValue | Union | Field
  | LocalVariable | Function | Method | FunctionParameter
  | TemplateTypeParameter | TemplateNonTypeParameter
  | TemplateTemplateParameter | MacroDefinition | MacroInstantiation
  | Typedef | NamespaceAlias | UsingDirective | UsingDeclaration
  | Unsupported.

#[global] Instance SemanticNodeId_eq_dec : EqDecision SemanticNodeId.
Proof. solve_decision. Defined.

(** ** AST nodes as the front-end reports them *)

(** A token of a cursor's extent; [token.cursor] is represented by the two
    attributes of it that the code reads. *)
Record Token : Type := mkToken {
  tok_kind : TokenKind;
  tok_spelling : string;
  tok_location : SourceLocation;
  tok_extent : SourceRange;
  tok_cursor_kind : CursorKind;
  tok_cursor_extent : SourceRange
}.

(** The cursor behind [cursor.referenced]: kind, spelling, USR and the
    kinds of the candidates of its overload set, in index order. *)
Record Referenced : Type := mkReferenced {
  ref_kind : CursorKind;
  ref_spelling : string;
  ref_usr : string;
  ref_overloaded_decls : list CursorKind
}.

Record CursorData : Type := mkData {
  kind : CursorKind;
  spelling : string;
  type_kind : TypeKind;                 (* cursor.type.kind *)
  location : SourceLocation;
  extent : SourceRange;
  referenced : option Referenced;       (* None: the null cursor *)
  usr : string;                         (* cursor.get_usr() *)
  overloaded_decls : list CursorKind;   (* clang_getOverloadedDecl(cursor, i).kind *)
  tokens : list Token                   (* cursor.get_tokens() *)
}.

#[local] Set Warnings "-register-all".

Inductive Node : Type := mkNode {
  node_data : CursorData;
  node_children : list Node
}.

(** [index.parse] / [index.read] hand back a translation unit: its
    spelling, the root of its AST and the front-end's location lookup
    ([Cursor.from_location] at a line and a column of the unit's file). *)
Record TranslationUnit : Type := mkTU {
  tu_spelling : string;
  tu_root : Node;
  tu_from_location : Z -> Z -> Node
}.

(** A Python [Cursor] object: the native node plus the two attributes that
    only [traverse] assigns. *)
Inductive Cursor : Type := mkCursor {
  native : Node;
  _tu : attr TranslationUnit;
  ast_parent : attr (option Cursor)
}.

Definition data (c : Cursor) : CursorData := node_data (native c).

(** The object the native layer builds for a callback argument. *)
Definition callback_cursor (n : Node) : Cursor := mkCursor n Unset Unset.

(** [tunit.cursor] and [Cursor.from_location]: the library stores the unit
    on what it returns; nothing assigns [ast_parent]. *)
Definition tu_cursor (tu : TranslationUnit) : Cursor :=
  mkCursor (tu_root tu) (Assigned tu) Unset.

Definition from_location (tu : TranslationUnit) (line column : Z) : Cursor :=
  mkCursor (tu_from_location tu line column) (Assigned tu) Unset.

(** ** Cursor traversal (lines 24-60) *)

Section Traversal.
Context {D : Type}.

(** A visitor sees the child, the parent and the client data, may update
    the client data, and answers how to go on. *)
Definition Visitor : Type := Cursor -> Cursor -> D -> result (ChildVisitResult * D).

Definition default_visitor : Visitor :=
  fun child parent client_data => Ok (CONTINUE, client_data).

(** The loop of [clang_visitChildren] over the children [l] of [parent];
    [visit_below] walks below one child. *)
Fixpoint visit_siblings (visit_below : Node -> D -> result (bool * D))
    (visitor : Visitor) (parent : Node) (l : list Node) (d : D) {struct l}
  : result (bool * D) :=
  match l with
  | [] => Ok (false, d)
  | child :: rest =>
      '(r, d1) ← visitor (callback_cursor child) (callback_cursor parent) d;
      match r with
      | BREAK => Ok (true, d1)
      | CONTINUE => visit_siblings visit_below visitor parent rest d1
      | RECURSE =>
          '(stop, d2) ← visit_below child d1;
          if stop : bool then Ok (true, d2)
          else visit_siblings visit_below visitor parent rest d2
      end
  end.

(** [clang_visitChildren]: children in order; the answer is [true] when a
    visitor broke the walk off.  An exception leaving the visitor ends the
    walk. *)
Fixpoint clang_visitChildren (visitor : Visitor) (parent : Node) (client_data : D)
  {struct parent} : result (bool * D) :=
  visit_siblings (clang_visitChildren visitor) visitor parent
    (node_children parent) client_data.

(** The assignments of lines 34 and 35, on the child object itself.  The
    assertion of line 33 holds for every child the native layer delivers:
    a node has no null child. *)
Definition attach (cursor child parent : Cursor) : result Cursor :=
  tu ← getattr (_tu cursor);
  Ok (mkCursor (native child) (Assigned tu) (Assigned (Some parent))).

Definition traverse (cursor : Cursor) (client_data : D) (client_visitor : Visitor)
  : result (bool * D) :=
  let visitor : Visitor := fun child parent client_data =>
    child' ← attach cursor child parent;
    client_visitor child' parent client_data in
  clang_visitChildren visitor (native cursor) client_data.

End Traversal.

(** [Cursor.get_children], replaced at line 60 by this function. *)
Definition get_children_patched (self : Cursor) (traversal_type : ChildVisitResult)
  : result (list Cursor) :=
  let visitor : Visitor := fun child parent children =>
    Ok (traversal_type, children ++ [child]) in
  '(_, children) ← traverse self [] visitor;
  Ok children.

(** All nodes strictly below [n], in the order a full walk meets them. *)
Fixpoint descendants (n : Node) : list Node :=
  List.flat_map (fun child => child :: descendants child) (node_children n).


(** ** Dependent constructs (lines 416-461) *)

(** The test of lines 433, 437, 448 and 459 on one token. *)
Definition qualifying (cursor : Cursor) (token : Token) : bool :=
  bool_decide (tok_kind token = IDENTIFIER)
  && bool_decide (tok_cursor_kind token = MEMBER_REF_EXPR)
  && SourceRange_eq (tok_cursor_extent token) (extent (data cursor)).

(** [for token in cursor.get_tokens(): if <test>: return ...] leaves at
    the first token that passes. *)
Definition first_qualifying (cursor : Cursor) : option Token :=
  List.find (qualifying cursor) (tokens (data cursor)).

(** Truth value of [cursor.ast_parent and cursor.ast_parent.kind == CALL_EXPR]. *)
Definition parent_is_call (p : option Cursor) : bool :=
  match p with
  | None => false
  | Some parent => bool_decide (kind (data parent) = CALL_EXPR)
  end.

Definition __extract_dependent_type_kind (cursor : Cursor) : result CursorKind :=
  _ ← py_assert (bool_decide (type_kind (data cursor) = DEPENDENT));
  if bool_decide (kind (data cursor) = MEMBER_REF_EXPR) then
    p ← getattr (ast_parent cursor);
    if parent_is_call p then
      match first_qualifying cursor with
      | Some _ => Ok CXX_METHOD
      | None => Ok (kind (data cursor))
      end
    else
      match first_qualifying cursor with
      | Some _ => Ok FIELD_DECL
      | None => Ok (kind (data cursor))
      end
  else Ok (kind (data cursor)).

Definition __extract_dependent_type_spelling (cursor : Cursor) : result string :=
  _ ← py_assert (bool_decide (type_kind (data cursor) = DEPENDENT));
  if bool_decide (kind (data cursor) = MEMBER_REF_EXPR) then
    match first_qualifying cursor with
    | Some token => Ok (tok_spelling token)
    | None => Ok (spelling (data cursor))
    end
  else Ok (spelling (data cursor)).

Definition __extract_dependent_type_location (cursor : Cursor) : result SourceLocation :=
  _ ← py_assert (bool_decide (type_kind (data cursor) = DEPENDENT));
  if bool_decide (kind (data cursor) = MEMBER_REF_EXPR) then
    match first_qualifying cursor with
    | Some token => Ok (tok_location token)
    | None => Ok (location (data cursor))
    end
  else Ok (location (data cursor)).

(** Line 431 is the one place that reads [ast_parent]; it is reached for
    a dependent member access only. *)
Definition reads_ast_parent (c : Cursor) : bool :=
  bool_decide (type_kind (data c) = DEPENDENT)
  && bool_decide (kind (data c) = MEMBER_REF_EXPR).

(** ** Classification (lines 151-200, 463-505) *)

Definition to_ast_node_id (k : CursorKind) : SemanticNodeId :=
  match k with
  | NAMESPACE => Namespace
  | CLASS_DECL | CLASS_TEMPLATE | CLASS_TEMPLATE_PARTIAL_SPECIALIZATION => Class
  | STRUCT_DECL => Struct
  | ENUM_DECL => Enum
  | ENUM_CONSTANT_DECL => EnumValue
  | UNION_DECL => Union
  | FIELD_DECL => Field
  | VAR_DECL => LocalVariable
  | FUNCTION_DECL | FUNCTION_TEMPLATE => Function
  | CXX_METHOD | CONSTRUCTOR | DESTRUCTOR => Method
  | PARM_DECL => FunctionParameter
  | TEMPLATE_TYPE_PARAMETER => TemplateTypeParameter
  | TEMPLATE_NON_TYPE_PARAMETER => TemplateNonTypeParameter
  | TEMPLATE_TEMPLATE_PARAMETER => TemplateTemplateParameter
  | MACRO_DEFINITION => MacroDefinition
  | MACRO_INSTANTIATION => MacroInstantiation
  | TYPEDEF_DECL | TYPE_ALIAS_DECL => Typedef
  | NAMESPACE_ALIAS => NamespaceAlias
  | USING_DIRECTIVE => UsingDirective
  | USING_DECLARATION => UsingDeclaration
  | _ => Unsupported
  end.

(** The kinds the if-chain of [to_ast_node_id] compares against. *)
Definition mapped_kinds : list CursorKind :=
  [ NAMESPACE; CLASS_DECL; CLASS_TEMPLATE; CLASS_TEMPLATE_PARTIAL_SPECIALIZATION;
    STRUCT_DECL; ENUM_DECL; ENUM_CONSTANT_DECL; UNION_DECL; FIELD_DECL; VAR_DECL;
    FUNCTION_DECL; FUNCTION_TEMPLATE; CXX_METHOD; CONSTRUCTOR; DESTRUCTOR;
    PARM_DECL; TEMPLATE_TYPE_PARAMETER; TEMPLATE_NON_TYPE_PARAMETER;
    TEMPLATE_TEMPLATE_PARAMETER; MACRO_DEFINITION; MACRO_INSTANTIATION;
    TYPEDEF_DECL; TYPE_ALIAS_DECL; NAMESPACE_ALIAS; USING_DIRECTIVE;
    USING_DECLARATION ].

(** [__get_num_overloaded_decls(c)] is the length of the candidate list
    and [__get_overloaded_decl(c, 0).kind] its head; the source asks for
    the head only after the count was non-zero. *)
Definition first_overload (candidates : list CursorKind) : option CursorKind :=
  match candidates with
  | [] => None
  | k :: _ => Some k
  end.

Definition get_ast_node_id (cursor : Cursor) : result SemanticNodeId :=
  if bool_decide (type_kind (data cursor) = DEPENDENT) then
    k ← __extract_dependent_type_kind cursor;
    Ok (to_ast_node_id k)
  else
    match referenced (data cursor) with
    | Some r =>
        match (if bool_decide (ref_kind r = OVERLOADED_DECL_REF)
               then first_overload (ref_overloaded_decls r) else None) with
        | Some k => Ok (to_ast_node_id k)
        | None => Ok (to_ast_node_id (ref_kind r))
        end
    | None =>
        match (if bool_decide (kind (data cursor) = OVERLOADED_DECL_REF)
               then first_overload (overloaded_decls (data cursor)) else None) with
        | Some k => Ok (to_ast_node_id k)
        | None => Ok (to_ast_node_id (kind (data cursor)))
        end
    end.

Definition get_ast_node_name (cursor : Cursor) : result string :=
  if bool_decide (type_kind (data cursor) = DEPENDENT) then
    __extract_dependent_type_spelling cursor
  else
    match referenced (data cursor) with
    | Some r => Ok (ref_spelling r)
    | None => Ok (spelling (data cursor))
    end.

Definition get_ast_node_line (cursor : Cursor) : result Z :=
  if bool_decide (type_kind (data cursor) = DEPENDENT) then
    l ← __extract_dependent_type_location cursor;
    Ok (loc_line l)
  else Ok (loc_line (location (data cursor))).

Definition get_ast_node_column (cursor : Cursor) : result Z :=
  if bool_decide (type_kind (data cursor) = DEPENDENT) then
    l ← __extract_dependent_type_location cursor;
    Ok (loc_column l)
  else Ok (loc_column (location (data cursor))).

(** ** The translation-unit store (lines 114-146, 333-338) *)

Record ClangParser : Type := mkParser {
  tunits : gmap string TranslationUnit;
  default_args : list string
}.

Definition set_tunits (self : ClangParser) (m : gmap string TranslationUnit) : ClangParser :=
  mkParser m (default_args self).

(** [for x in xs: s = body(s, x)], leaving at the first exception. *)
Fixpoint for_each {A S : Type} (body : S -> A -> result S) (xs : list A) (s : S)
  : result S :=
  match xs with
  | [] => Ok s
  | x :: rest => s' ← body s x; for_each body rest s'
  end.

Section Store.
(** [self.index.parse(path, args, options)]: the front-end, which raises
    when it cannot produce a unit. *)
Variable index_parse : string -> list string -> result TranslationUnit.

(** [run]: the assignment to [self.tunits[original_filename]] happens only
    once [index.parse] has returned; the bare [except] logs and goes on.
    The logging calls neither fail nor touch the store. *)
Definition run (self : ClangParser)
    (contents_filename original_filename : string)
    (compiler_args : list string) (project_root_directory : string)
  : result ClangParser :=
  try_except
    (tu ← index_parse contents_filename
            (default_args self ++ compiler_args
               ++ ["-working-directory=" +:+ project_root_directory]);
     Ok (set_tunits self (<[original_filename := tu]> (tunits self))))
    (fun _ => Ok self).
End Store.

Definition get_translation_unit (self : ClangParser) (filename : string)
  : option TranslationUnit :=
  tunits self !! filename.

Definition drop_translation_unit (self : ClangParser) (filename : string) : ClangParser :=
  set_tunits self (delete filename (tunits self)).

Definition drop_all_translation_units (self : ClangParser) : ClangParser :=
  set_tunits self ∅.

(** [map_source_location_to_cursor] (lines 202-217): the empty string for
    an unknown file, else the cursor the front-end finds at the position. *)
Definition map_source_location_to_cursor (self : ClangParser) (filename : string)
    (line column : Z) : string + Cursor :=
  match tunits self !! filename with
  | None => inl ""
  | Some tu => inr (from_location tu line column)
  end.

(** ** Reference search (lines 234-300) *)

(** [x.referenced if x.referenced else x]: the code reads spelling and
    USR of whichever it got. *)
Definition referenced_or_self (d : CursorData) : Referenced + CursorData :=
  match referenced d with
  | Some r => inl r
  | None => inr d
  end.

Definition spelling_of (n : Referenced + CursorData) : string :=
  match n with inl r => ref_spelling r | inr d => spelling d end.

Definition get_usr (n : Referenced + CursorData) : string :=
  match n with inl r => ref_usr r | inr d => usr d end.

(** The namedtuple of line 297; [references] is the one set all visits
    add to. *)
Record client_data : Type := mkClientData {
  cd_cursor : Referenced + CursorData;
  cd_references : gset ISL
}.

(** Lines 272-276: the loop stops at the first token that starts where the
    node is located, and adds the location if that token spells the name. *)
Definition confirm_by_token (d : CursorData) (node : Referenced + CursorData)
    (references : gset ISL) : gset ISL :=
  match List.find (fun token => SourceLocation_eq (location d) (range_start (tok_extent token)))
                  (tokens d) with
  | Some token =>
      if bool_decide (spelling_of node = tok_spelling token)
      then {[ ImmutableSourceLocation.init (location d) ]} ∪ references
      else references
  | None => references
  end.

(** Line 246: [ast_node.location.file and ast_node.location.file.name == filename]. *)
Definition located_in (d : CursorData) (filename : string) : bool :=
  match loc_file (location d) with
  | Some f => bool_decide (file_name f = filename)
  | None => false
  end.

(** The nested [visitor] of [find_all_references].  [filename] is the
    variable of the enclosing function, read when the visitor runs. *)
Definition find_all_references_visitor (filename : string) : Visitor (D := client_data) :=
  fun ast_node ast_parent_node cd =>
    let d := data ast_node in
    let cd' :=
      if located_in d filename then
        let node := referenced_or_self d in
        if bool_decide (spelling_of node = spelling_of (cd_cursor cd)) then
          if bool_decide (get_usr node = get_usr (cd_cursor cd)) then
            mkClientData (cd_cursor cd) (confirm_by_token d node (cd_references cd))
          else cd
        else cd
      else cd in
    Ok (RECURSE, cd').

(** What a Python caller gets back: a list on one path, a set on the other. *)
Inductive PyCollection : Type :=
  | PyList (l : list ISL)
  | PySet (s : gset ISL).

Definition members (r : PyCollection) : list ISL :=
  match r with
  | PyList l => l
  | PySet s => elements s
  end.

(** [find_all_references].  The [for filename, tunit in ...] of line 298
    assigns the function's own variable [filename], the one the visitor
    reads: while a unit is walked, [filename] is that unit's key. *)
Definition find_all_references (self : ClangParser) (filename : string) (line column : Z)
  : result PyCollection :=
  match tunits self !! filename with
  | None => Ok (PyList [])
  | Some tu =>
      let cursor := from_location tu line column in
      let target := referenced_or_self (data cursor) in
      references ←
        for_each
          (fun references '(filename, tunit) =>
             '(_, cd) ← traverse (tu_cursor tunit) (mkClientData target references)
                          (find_all_references_visitor filename);
             Ok (cd_references cd))
          (map_to_list (tunits self)) ∅;
      Ok (PySet references)
  end.

(** Where a reported location comes from: a node below the root of a
    loaded unit, located in the file that is the unit's key. *)
Definition from_unit_own_file (self : ClangParser) (loc : ISL) : Prop :=
  exists key tu node,
    tunits self !! key = Some tu
    /\ node ∈ descendants (tu_root tu)
    /\ location (node_data node) = ImmutableSourceLocation.source_location loc
    /\ loc_file (location (node_data node)) = Some (mkFile key).

(** ** Python strings and [os.path] *)

Definition sep : ascii := "/"%char.
Definition dot : ascii := "."%char.

(** A slice index as Python resolves it against a length: a negative index
    counts from the end, and the outcome is clamped to [0, len]. *)
Definition slice_index (len : nat) (i : Z) : nat :=
  if (i <? 0)%Z then Z.to_nat (Z.max 0 (Z.of_nat len + i))
  else Nat.min (Z.to_nat i) len.

(** [s[i:j]] *)
Definition py_slice (s : string) (i j : Z) : string :=
  let a := slice_index (String.length s) i in
  let b := slice_index (String.length s) j in
  String.substring a (b - a) s.

(** [s.startswith('/')] and [s.endswith('/')] *)
Definition startswith_sep (s : string) : bool :=
  match s with
  | String c _ => bool_decide (c = sep)
  | EmptyString => false
  end.

Fixpoint endswith_sep (s : string) : bool :=
  match s with
  | EmptyString => false
  | String c EmptyString => bool_decide (c = sep)
  | String _ r => endswith_sep r
  end.

(** [s.rfind(c)]; [None] stands for -1. *)
Fixpoint rfind (c : ascii) (s : string) : option nat :=
  match s with
  | EmptyString => None
  | String a r =>
      match rfind c r with
      | Some i => Some (S i)
      | None => if bool_decide (a = c) then Some 0 else None
      end
  end.

(** [posixpath.join(a, b)] *)
Definition os_path_join (a b : string) : string :=
  if startswith_sep b then b
  else if bool_decide (a = "") || endswith_sep a then a +:+ b
  else a +:+ "/" +:+ b.

Fixpoint all_chars (c : ascii) (s : string) : bool :=
  match s with
  | EmptyString => true
  | String a r => bool_decide (a = c) && all_chars c r
  end.

(** [s.rstrip('/')] *)
Fixpoint rstrip_sep (s : string) : string :=
  match s with
  | EmptyString => EmptyString
  | String a r =>
      match rstrip_sep r with
      | EmptyString => if bool_decide (a = sep) then EmptyString else String a EmptyString
      | r' => String a r'
      end
  end.

(** [posixpath.dirname(p)] *)
Definition os_path_dirname (p : string) : string :=
  let i := match rfind sep p with Some n => S n | None => 0 end in
  let head := String.substring 0 i p in
  if negb (bool_decide (head = "")) && negb (all_chars sep head)
  then rstrip_sep head else head.

(** [posixpath.splitext(p)]: the extension starts at the last dot, unless
    only dots stand between the last separator and that dot. *)
Definition os_path_splitext (p : string) : string * string :=
  match rfind dot p with
  | Some dotIndex =>
      let filenameIndex := match rfind sep p with Some n => S n | None => 0 end in
      if (filenameIndex <=? dotIndex)%nat
         && negb (all_chars dot (String.substring filenameIndex (dotIndex - filenameIndex) p))
      then (String.substring 0 dotIndex p,
            String.substring dotIndex (String.length p - dotIndex) p)
      else (p, "")
  | None => (p, "")
  end.

(** ** The disk *)

(** What a file holds: an AST some unit's [save] wrote, or anything else. *)
Inductive FileContent : Type :=
  | SerializedAst (tu : TranslationUnit)
  | OtherContent.

(** Files and directories by path.  A path string stands for the file it
    names, which is exact for paths without empty, [.] or [..] components. *)
Record Disk : Type := mkDisk {
  files : gmap string FileContent;
  dirs : gset string
}.

Definition os_path_exists (p : string) (disk : Disk) : bool :=
  bool_decide (p ∈ dirs disk) || bool_decide (is_Some (files disk !! p)).

(** The directory itself and every prefix of it that ends before a
    separator: what [os.makedirs] creates. *)
Fixpoint ancestors (done : string) (rest : string) : list string :=
  match rest with
  | EmptyString => [done]
  | String c r =>
      (if bool_decide (c = sep) && negb (bool_decide (done = "")) then [done] else [])
      ++ ancestors (done +:+ String c EmptyString) r
  end.

(** Splits a path after its last separator: the directory part, separator
    included, and the file name. *)
Fixpoint rsplit_sep (s : string) : option (string * string) :=
  match s with
  | EmptyString => None
  | String c r =>
      match rsplit_sep r with
      | Some (h, t) => Some (String c h, t)
      | None => if bool_decide (c = sep) then Some (String c EmptyString, r) else None
      end
  end.

(** [top] as a prefix of everything below it. *)
Definition dir_prefix (top : string) : string :=
  if endswith_sep top then top else top +:+ "/".

(** Whether the file at path [q] lies below directory [top]. *)
Definition under (top q : string) : bool :=
  negb (bool_decide (top = ""))
  && String.prefix (dir_prefix top) q
  && (String.length (dir_prefix top) <? String.length q)%nat.

(** [os.walk(top)] over the files of the disk: per file below [top], the
    directory it is in and its name.  The directory is given with its
    closing separator; [os.path.join] of the two is the file's path either
    way.  Nothing is found below the empty path. *)
Definition os_walk (top : string) (disk : Disk) : list (string * list string) :=
  omap (fun q => if under top q
                 then '(dirpath, file) ← rsplit_sep q; Some (dirpath, [file])
                 else None)
       (map fst (map_to_list (files disk))).

(** A loop over [xs] on a state that survives an exception: the state is
    as the failing iteration left it. *)
Fixpoint for_each_st {A S : Type} (body : A -> S -> result unit * S) (xs : list A) (s : S)
  : result unit * S :=
  match xs with
  | [] => (Ok tt, s)
  | x :: rest =>
      match body x s with
      | (Ok _, s') => for_each_st body rest s'
      | (Raise e, s') => (Raise e, s')
      end
  end.

(** ** Saving and loading (lines 302-331) *)

Section Persistence.
(** Whether the environment lets the process create what is at a path. *)
Variable may_write : string -> bool.

Definition os_makedirs (directory : string) (disk : Disk) : result unit * Disk :=
  if may_write directory
  then (Ok tt, mkDisk (files disk) (list_to_set (ancestors "" directory) ∪ dirs disk))
  else (Raise OSError, disk).

(** [tunit.save(path)] *)
Definition tunit_save (tunit : TranslationUnit) (path : string) (disk : Disk)
  : result unit * Disk :=
  if may_write path
  then (Ok tt, mkDisk (<[path := SerializedAst tunit]> (files disk)) (dirs disk))
  else (Raise TranslationUnitSaveError, disk).

(** The path [save_to_disk] writes the unit of key [filename] to. *)
Definition ast_path (root_dir filename : string) : string :=
  os_path_join root_dir
    (py_slice filename 1 (Z.of_nat (String.length filename)) +:+ ".ast").

Definition save_body (root_dir : string) (item : string * TranslationUnit) (disk : Disk)
  : result unit * Disk :=
  let '(filename, tunit) := item in
  let directory :=
    os_path_dirname
      (os_path_join root_dir (py_slice filename 1 (Z.of_nat (String.length filename)))) in
  match (if negb (os_path_exists directory disk)
         then os_makedirs directory disk else (Ok tt, disk)) with
  | (Ok _, disk1) => tunit_save tunit (ast_path root_dir filename) disk1
  | (Raise e, disk1) => (Raise e, disk1)
  end.

(** [save_to_disk]: [True] unless something raised; what was written
    before the exception stays written. *)
Definition save_to_disk (self : ClangParser) (root_dir : string) (disk : Disk)
  : bool * Disk :=
  match for_each_st (save_body root_dir) (map_to_list (tunits self)) disk with
  | (Ok _, disk') => (true, disk')
  | (Raise _, disk') => (false, disk')
  end.

End Persistence.

(** [self.index.read(path)] *)
Definition index_read (path : string) (disk : Disk) : result TranslationUnit :=
  match files disk !! path with
  | Some (SerializedAst tu) => Ok tu
  | _ => Raise TranslationUnitLoadError
  end.

(** The key [load_from_disk] files the unit read from [path] under. *)
Definition original_filename_of (root_dir path : string) : string :=
  py_slice path (Z.of_nat (String.length root_dir)) (- Z.of_nat (String.length ".ast")).

(** Lines 320-326 for one file of one directory. *)
Definition load_file (root_dir : string) (disk : Disk) (dirpath file : string)
    (m : gmap string TranslationUnit) : result unit * gmap string TranslationUnit :=
  let '(name, extension) := os_path_splitext file in
  if bool_decide (extension = ".ast") then
    let parsing_result_filename := os_path_join dirpath file in
    let original_filename := original_filename_of root_dir parsing_result_filename in
    match index_read parsing_result_filename disk with
    | Ok tu => (Ok tt, <[original_filename := tu]> m)
    | Raise e => (Raise e, m)
    end
  else (Ok tt, m).

Definition load_body (root_dir : string) (disk : Disk) (entry : string * list string)
    (m : gmap string TranslationUnit) : result unit * gmap string TranslationUnit :=
  for_each_st (load_file root_dir disk (fst entry)) (snd entry) m.

(** [load_from_disk]: the store is emptied first, inside the [try]; an
    exception leaves it as the loop had filled it so far. *)
Definition load_from_disk (self : ClangParser) (root_dir : string) (disk : Disk)
  : bool * ClangParser :=
  match for_each_st (load_body root_dir disk) (os_walk root_dir disk) ∅ with
  | (Ok _, m) => (true, set_tunits self m)
  | (Raise _, m) => (false, set_tunits self m)
  end.

(** The key the loop files an entry under. *)
Definition entry_key (root_dir : string) (entry : string * list string) : string :=
  original_filename_of root_dir (os_path_join (fst entry) (hd "" (snd entry))).

(** Every unit in the store during a load was read from a file below the
    root, and is filed under what the slice makes of that file's path. *)
Definition read_from_disk (root_dir : string) (disk : Disk)
    (m : gmap string TranslationUnit) : Prop :=
  forall key tu, m !! key = Some tu ->
    exists path, under root_dir path = true
      /\ files disk !! path = Some (SerializedAst tu)
      /\ key = original_filename_of root_dir path.

(** ** Paths the on-disk layout is made for *)

(** The components of a path: what stands between its separators. *)
Fixpoint components (s : string) : list string :=
  match s with
  | EmptyString => [EmptyString]
  | String c r =>
      if bool_decide (c = sep) then EmptyString :: components r
      else match components r with
           | x :: xs => String c x :: xs
           | [] => [String c EmptyString]
           end
  end.

(** No component is empty or made of dots only: no doubled or closing
    separator, no [.], no [..]. *)
Definition clean (s : string) : bool :=
  forallb (fun component => negb (all_chars dot component)) (components s).

(** A key [save_to_disk] is written for: an absolute path with clean
    components. *)
Definition absolute_key (filename : string) : bool :=
  match filename with
  | String c r => bool_decide (c = sep) && clean r
  | EmptyString => false
  end.

(** A root directory [load_from_disk] is written for: a path with clean
    components, absolute or not; in particular not empty and without a
    closing separator. *)
Definition plain_root (root_dir : string) : bool :=
  match root_dir with
  | String c r => if bool_decide (c = sep) then clean r else clean root_dir
  | EmptyString => false
  end.

(** ** Sample inputs *)

(** [x.foo()] inside an uninstantiated template, in /src/t.cpp at line 3:
    [x] at column 3, [foo] at column 5. *)
Definition at_t (line column offset : Z) : SourceLocation :=
  mkLoc (Some (mkFile "/src/t.cpp")) line column offset.

Definition member_extent : SourceRange := mkRange (at_t 3 3 40) (at_t 3 8 45).
Definition call_extent : SourceRange := mkRange (at_t 3 3 40) (at_t 3 10 47).

Definition foo_token : Token :=
  mkToken IDENTIFIER "foo" (at_t 3 5 42) (mkRange (at_t 3 5 42) (at_t 3 8 45))
    MEMBER_REF_EXPR member_extent.

Definition member_tokens : list Token :=
  [ mkToken IDENTIFIER "x" (at_t 3 3 40) (mkRange (at_t 3 3 40) (at_t 3 4 41))
      (OTHER_KIND 101) (mkRange (at_t 3 3 40) (at_t 3 4 41));
    mkToken PUNCTUATION "." (at_t 3 4 41) (mkRange (at_t 3 4 41) (at_t 3 5 42))
      MEMBER_REF_EXPR member_extent;
    foo_token ].

(** The member access: dependent type, so the front-end gives it no
    spelling and no referenced declaration. *)
Definition member_data : CursorData :=
  mkData MEMBER_REF_EXPR "" DEPENDENT (at_t 3 3 40) member_extent None "" [] member_tokens.

(** The same node where the tokens of its extent map to other cursors. *)
Definition member_data_unmatched : CursorData :=
  mkData MEMBER_REF_EXPR "" DEPENDENT (at_t 3 3 40) member_extent None "" []
    [ mkToken IDENTIFIER "x" (at_t 3 3 40) (mkRange (at_t 3 3 40) (at_t 3 4 41))
        (OTHER_KIND 101) (mkRange (at_t 3 3 40) (at_t 3 4 41)) ].

Definition call_data : CursorData :=
  mkData CALL_EXPR "" DEPENDENT (at_t 3 3 40) call_extent None "" [] member_tokens.

Definition unit_data (path : string) : CursorData :=
  mkData (OTHER_KIND 300) path (OTHER_TYPE 0) (mkLoc None 0 0 0)
    (mkRange (mkLoc None 0 0 0) (mkLoc None 0 0 0)) None "" [] [].

Definition member_node : Node := mkNode member_data [].
Definition call_node : Node := mkNode call_data [member_node].

(** The unit of /src/t.cpp; looking up line 3, column 5 gives the member
    access, line 9 the variant without a matching token. *)
Definition template_unit : TranslationUnit :=
  mkTU "/src/t.cpp" (mkNode (unit_data "/src/t.cpp") [call_node])
    (fun line column =>
       if (line =? 3)%Z then member_node
       else if (line =? 9)%Z then mkNode member_data_unmatched []
       else mkNode (unit_data "/src/t.cpp") [call_node]).

(** The member access as a walk over the unit delivers it. *)
Definition member_in_call : Cursor :=
  mkCursor member_node (Assigned template_unit) (Assigned (Some (callback_cursor call_node))).

(** The same node below a parent that is no call. *)
Definition member_in_unit : Cursor :=
  mkCursor member_node (Assigned template_unit)
    (Assigned (Some (callback_cursor (tu_root template_unit)))).

(** Two units that use one function [f]: declared and called in /src/a.cpp,
    called again in /src/b.cpp. *)
Definition at_file (path : string) (line column offset : Z) : SourceLocation :=
  mkLoc (Some (mkFile path)) line column offset.

Definition f_decl : Referenced := mkReferenced FUNCTION_DECL "f" "c:@F@f#" [].

Definition name_token (name path : string) (line column offset : Z) : Token :=
  mkToken IDENTIFIER name (at_file path line column offset)
    (mkRange (at_file path line column offset) (at_file path line (column + 1) (offset + 1)))
    (OTHER_KIND 101)
    (mkRange (at_file path line column offset) (at_file path line (column + 1) (offset + 1))).

Definition f_decl_data : CursorData :=
  mkData FUNCTION_DECL "f" (OTHER_TYPE 111) (at_file "/src/a.cpp" 1 6 5)
    (mkRange (at_file "/src/a.cpp" 1 1 0) (at_file "/src/a.cpp" 1 9 8))
    (Some f_decl) "c:@F@f#" [] [name_token "f" "/src/a.cpp" 1 6 5].

Definition f_use_data (path : string) (line column offset : Z) : CursorData :=
  mkData (OTHER_KIND 101) "f" (OTHER_TYPE 111) (at_file path line column offset)
    (mkRange (at_file path line column offset) (at_file path line (column + 1) (offset + 1)))
    (Some f_decl) "" [] [name_token "f" path line column offset].

Definition unit_a : TranslationUnit :=
  mkTU "/src/a.cpp"
    (mkNode (unit_data "/src/a.cpp")
       [mkNode f_decl_data []; mkNode (f_use_data "/src/a.cpp" 4 3 30) []])
    (fun _ _ => mkNode f_decl_data []).

Definition unit_b : TranslationUnit :=
  mkTU "/src/b.cpp"
    (mkNode (unit_data "/src/b.cpp") [mkNode (f_use_data "/src/b.cpp" 7 5 61) []])
    (fun _ _ => mkNode (f_use_data "/src/b.cpp" 7 5 61) []).

Definition template_store : ClangParser :=
  mkParser (<["/src/t.cpp" := template_unit]> ∅) [].

(** A front-end that can parse /src/a.cpp and nothing else. *)
Definition parse_only_a (path : string) (args : list string) : result TranslationUnit :=
  if bool_decide (path = "/src/a.cpp") then Ok unit_a else Raise TranslationUnitLoadError.

Definition two_units : ClangParser :=
  mkParser (<["/src/a.cpp" := unit_a]> (<["/src/b.cpp" := unit_b]> ∅)) [].

(** A store whose one key is a relative path, and an empty disk. *)
Definition relative_key_store : ClangParser :=
  mkParser (<["a.cpp" := unit_a]> ∅) [].

Definition absolute_key_store : ClangParser :=
  mkParser (<["/src/a.cpp" := unit_a]> ∅) [].

Definition empty_disk : Disk := mkDisk ∅ ∅.

Definition fresh_store : ClangParser := mkParser ∅ [].

(** A disk whose one file below /idx is no serialized unit. *)
Definition broken_disk : Disk := mkDisk (<["/idx/x.ast" := OtherContent]> ∅) ∅.

(** ** System include paths (lines 108-118) *)

Definition space : ascii := " "%char.
Definition backslash : ascii := "\"%char.

(** [s.find(sub)]: the lowest index at which [sub] occurs, or -1. *)
Definition py_find (sub s : string) : Z :=
  match String.index 0 sub s with
  | Some i => Z.of_nat i
  | None => (-1)%Z
  end.

(** [s.replace(' ', '-I')] *)
Fixpoint replace_space (s : string) : string :=
  match s with
  | EmptyString => EmptyString
  | String c r =>
      if bool_decide (c = space) then String "-" (String "I" (replace_space r))
      else String c (replace_space r)
  end.

(** [s.split('\\n')]: the separator is a backslash followed by [n], the
    way [str] of a tuple writes a line break. *)
Fixpoint split_escaped_newline (s : string) : list string :=
  match s with
  | EmptyString => [EmptyString]
  | String c r =>
      let go_on :=
        match split_escaped_newline r with
        | x :: xs => String c x :: xs
        | [] => [String c EmptyString]
        end in
      match r with
      | String n r' =>
          if bool_decide (c = backslash) && bool_decide (n = "n"%char)
          then EmptyString :: split_escaped_newline r'
          else go_on
      | EmptyString => go_on
      end
  end.

(** [get_system_includes], from [output = str(output)] on: [output] is the
    text that [g++ -v -E -x c++ -] printed, as Python writes the pair of
    its streams. *)
Definition get_system_includes (output : string) : list string :=
  let pattern0 := "#include <...> search starts here:" in
  let pattern1 := "End of search list." in
  split_escaped_newline
    (replace_space
       (py_slice output
          (py_find pattern0 output + Z.of_nat (String.length pattern0))
          (py_find pattern1 output))).

(** [ClangParser.__init__] *)
Definition ClangParser_init (output : string) : ClangParser :=
  mkParser ∅ (["-x"; "c++"; "-std=c++14"] ++ get_system_includes output).

Fixpoint has_char (c : ascii) (s : string) : bool :=
  match s with
  | EmptyString => false
  | String a r => bool_decide (a = c) || has_char c r
  end.

(** What [g++] prints around two search directories. *)
Definition gxx_output : string :=
  "('', 'ignoring nonexistent directory\n#include <...> search starts here:\n /usr/include/c++/5\n /usr/include\nEnd of search list.\n')".


(** ** Auxiliary notions for the properties below *)

(** The cursor a walk started at [self] hands to its visitor for [child]
    below [parent]. *)
Definition delivered (tu : TranslationUnit) (parent child : Node) : Cursor :=
  mkCursor child (Assigned tu) (Assigned (Some (callback_cursor parent))).

(** Lines 248-249: the node, or what it refers to, has the spelling and
    the USR of the target. *)
Definition matches_target (target : Referenced + CursorData) (d : CursorData) : bool :=
  bool_decide (spelling_of (referenced_or_self d) = spelling_of target)
  && bool_decide (get_usr (referenced_or_self d) = get_usr target).

(** Lines 272-276: the first token that starts where the node is located
    spells the name. *)
Definition confirmed_by_token (d : CursorData) : bool :=
  match List.find (fun token => SourceLocation_eq (location d) (range_start (tok_extent token)))
                  (tokens d) with
  | Some token => bool_decide (spelling_of (referenced_or_self d) = tok_spelling token)
  | None => false
  end.

(** An occurrence of [target]: a node below the root of a loaded unit,
    located in the file that is the unit's key, that matches the target
    and is confirmed by its token. *)
Definition occurrence (self : ClangParser) (target : Referenced + CursorData) (loc : ISL)
  : Prop :=
  exists key tu node,
    tunits self !! key = Some tu
    /\ node ∈ descendants (tu_root tu)
    /\ loc = ImmutableSourceLocation.init (location (node_data node))
    /\ located_in (node_data node) key = true
    /\ matches_target target (node_data node) = true
    /\ confirmed_by_token (node_data node) = true.

(** What the cursor at a position of a loaded file is a reference to. *)
Definition target_at (tu : TranslationUnit) (line column : Z) : Referenced + CursorData :=
  referenced_or_self (data (from_location tu line column)).

(** The locations a fold of visits has gathered. *)
Definition gather (key : string) (target : Referenced + CursorData)
    (refs : gset ISL) (node : Node) : gset ISL :=
  if located_in (node_data node) key
     && matches_target target (node_data node)
     && confirmed_by_token (node_data node)
  then {[ ImmutableSourceLocation.init (location (node_data node)) ]} ∪ refs
  else refs.


(** The member access of [x.foo()] once more, this time with a spelling
    and a referenced declaration of its own. *)
Definition member_referring : Cursor :=
  mkCursor
    (mkNode (mkData MEMBER_REF_EXPR "zzz" DEPENDENT (at_t 3 3 40) member_extent
               (Some f_decl) "" [FUNCTION_DECL] member_tokens) [])
    (Assigned template_unit) (Assigned (Some (callback_cursor call_node))).

(** * Properties *)

(** ** Source locations *)

Lemma SourceLocation_eq_spec (a b : SourceLocation) :
  SourceLocation_eq a b = true <-> a = b.
Proof.
  unfold SourceLocation_eq. destruct a as [fa la ca oa], b as [fb lb cb ob]; simpl.
  rewrite !andb_true_iff, bool_decide_eq_true, !Z.eqb_eq.
  split.
  - intros [[[-> ->] ->] ->]. reflexivity.
  - intros [= -> -> -> ->]. auto.
Qed.

Lemma SourceLocation_eq_refl (a : SourceLocation) : SourceLocation_eq a a = true.
Proof. apply SourceLocation_eq_spec. reflexivity. Qed.

Lemma SourceRange_eq_spec (a b : SourceRange) :
  SourceRange_eq a b = true <-> a = b.
Proof.
  unfold SourceRange_eq. destruct a, b; simpl.
  rewrite andb_true_iff, !SourceLocation_eq_spec. split.
  - intros [-> ->]. reflexivity.
  - intros [= -> ->]. auto.
Qed.

Section LocationHash.
Variable hash_str : string -> Z.
Variable hash_int : Z -> Z.

Import ImmutableSourceLocation.



End LocationHash.


(** ** Classification *)

Lemma to_ast_node_id_unmapped (k : CursorKind) :
  k ∉ mapped_kinds <-> to_ast_node_id k = Unsupported.
Proof.
  rewrite list_elem_of_In. unfold mapped_kinds. split.
  - intros Hk. destruct k; try reflexivity; exfalso; apply Hk; simpl; tauto.
  - intros Hk Hin. destruct k; simpl in Hk; try discriminate;
      simpl in Hin; intuition discriminate.
Qed.

(** The kinds the source names without mapping them, and every kind it
    never names, are outside the table. *)
Lemma unmapped_examples (n : nat) :
  to_ast_node_id OVERLOADED_DECL_REF = Unsupported
  /\ to_ast_node_id MEMBER_REF_EXPR = Unsupported
  /\ to_ast_node_id CALL_EXPR = Unsupported
  /\ to_ast_node_id (OTHER_KIND n) = Unsupported.
Proof. repeat split. Qed.

Lemma dependent_kind_total (c : Cursor) :
  type_kind (data c) = DEPENDENT ->
  (reads_ast_parent c = true -> ast_parent c <> Unset) ->
  exists k, __extract_dependent_type_kind c = Ok k.
Proof.
  intros Hdep Hpar. unfold __extract_dependent_type_kind, reads_ast_parent in *.
  rewrite (bool_decide_eq_true_2 _ Hdep) in *. simpl in *.
  destruct (bool_decide (kind (data c) = MEMBER_REF_EXPR)); [| eexists; reflexivity].
  destruct (ast_parent c) as [|p]; [exfalso; apply Hpar; reflexivity |]. simpl.
  destruct (parent_is_call p), (first_qualifying c); eexists; reflexivity.
Qed.

(** C3, as the code has it.  A cursor that carries [ast_parent] whenever
    line 431 would read it is classified without an exception, on each of
    the four ways through [get_ast_node_id]; the answer is the table's
    entry for the kind that way selects, and a kind outside the table gives
    [Unsupported]. *)
Theorem get_ast_node_id_total_with_parent (c : Cursor) :
  (reads_ast_parent c = true -> ast_parent c <> Unset) ->
  (exists k, get_ast_node_id c = Ok (to_ast_node_id k)
     /\ (k ∉ mapped_kinds -> get_ast_node_id c = Ok Unsupported)
     /\ (if bool_decide (type_kind (data c) = DEPENDENT)
         then __extract_dependent_type_kind c = Ok k
         else match referenced (data c) with
              | Some r =>
                  if bool_decide (ref_kind r = OVERLOADED_DECL_REF)
                  then k = default (ref_kind r) (first_overload (ref_overloaded_decls r))
                  else k = ref_kind r
              | None =>
                  if bool_decide (kind (data c) = OVERLOADED_DECL_REF)
                  then k = default (kind (data c)) (first_overload (overloaded_decls (data c)))
                  else k = kind (data c)
              end))
  /\ (forall k, k ∉ mapped_kinds <-> to_ast_node_id k = Unsupported).
Proof.
  intros Hpar. split; [| apply to_ast_node_id_unmapped].
  assert (Hshape : forall k, get_ast_node_id c = Ok (to_ast_node_id k) ->
            k ∉ mapped_kinds -> get_ast_node_id c = Ok Unsupported).
  { intros k Hk Hun. rewrite Hk. f_equal. apply to_ast_node_id_unmapped, Hun. }
  unfold get_ast_node_id in *.
  destruct (bool_decide (type_kind (data c) = DEPENDENT)) eqn:Hdep.
  - apply bool_decide_eq_true in Hdep.
    destruct (dependent_kind_total c Hdep Hpar) as [k Hk].
    exists k. rewrite Hk in *. simpl in *.
    split; [reflexivity | split; [apply Hshape; reflexivity | reflexivity]].
  - destruct (referenced (data c)) as [r|].
    + destruct (bool_decide (ref_kind r = OVERLOADED_DECL_REF)).
      * destruct (first_overload (ref_overloaded_decls r)) as [k0|]; simpl;
          eexists; (split; [reflexivity | split; [apply Hshape; reflexivity | reflexivity]]).
      * eexists; (split; [reflexivity | split; [apply Hshape; reflexivity | reflexivity]]).
    + destruct (bool_decide (kind (data c) = OVERLOADED_DECL_REF)).
      * destruct (first_overload (overloaded_decls (data c))) as [k0|]; simpl;
          eexists; (split; [reflexivity | split; [apply Hshape; reflexivity | reflexivity]]).
      * eexists; (split; [reflexivity | split; [apply Hshape; reflexivity | reflexivity]]).
Qed.

(** The witness: the member access of [x.foo()] as a walk delivers it. *)
Lemma get_ast_node_id_total_with_parent_witness :
  exists k, get_ast_node_id member_in_call = Ok (to_ast_node_id k).
Proof.
  destruct (get_ast_node_id_total_with_parent member_in_call) as [(k & Hk & _) _].
  - intros _. discriminate.
  - exists k. exact Hk.
Defined.

(** C3 as stated fails: the cursor that [map_source_location_to_cursor]
    returns for line 3 of /src/t.cpp is a dependent member access on which
    nobody has assigned [ast_parent]; classifying it raises
    [AttributeError]. *)
Lemma get_ast_node_id_raises_without_parent :
  map_source_location_to_cursor template_store "/src/t.cpp" 3 5
    = inr (from_location template_unit 3 5)
  /\ type_kind (data (from_location template_unit 3 5)) = DEPENDENT
  /\ get_ast_node_id (from_location template_unit 3 5) = Raise AttributeError
  /\ ~ (exists id, get_ast_node_id (from_location template_unit 3 5) = Ok id).
Proof.
  split; [vm_compute; reflexivity |]. split; [reflexivity |]. split; [reflexivity |].
  intros [id Hid]. vm_compute in Hid. discriminate.
Qed.

(** ** Dependent constructs *)

Lemma first_qualifying_some (c : Cursor) :
  (exists token, token ∈ tokens (data c) /\ qualifying c token = true) ->
  exists token, first_qualifying c = Some token /\ qualifying c token = true.
Proof.
  intros (token & Hin & Hq). unfold first_qualifying.
  destruct (List.find (qualifying c) (tokens (data c))) as [t|] eqn:Hfind.
  - exists t. split; [reflexivity |]. apply List.find_some in Hfind. tauto.
  - apply list_elem_of_In in Hin.
    pose proof (List.find_none _ _ Hfind _ Hin) as Hno. congruence.
Qed.


(** A token qualifies when it is an identifier whose own cursor is a
    member access with the extent of the cursor at hand. *)
Lemma qualifying_spec (c : Cursor) (token : Token) :
  qualifying c token = true <->
  tok_kind token = IDENTIFIER /\ tok_cursor_kind token = MEMBER_REF_EXPR
  /\ tok_cursor_extent token = extent (data c).
Proof.
  unfold qualifying.
  rewrite !andb_true_iff, !bool_decide_eq_true, SourceRange_eq_spec. tauto.
Qed.

(** C7.  For a dependent member access with a qualifying token, the
    resolver answers by the attached parent: [CXX_METHOD] when the parent
    is a call expression, [FIELD_DECL] when it is anything else. *)
Theorem dependent_member_kind_by_parent (c : Cursor) (p : option Cursor) :
  type_kind (data c) = DEPENDENT ->
  kind (data c) = MEMBER_REF_EXPR ->
  ast_parent c = Assigned p ->
  (exists token, token ∈ tokens (data c) /\ tok_kind token = IDENTIFIER
     /\ tok_cursor_kind token = MEMBER_REF_EXPR
     /\ tok_cursor_extent token = extent (data c)) ->
  ((exists parent, p = Some parent /\ kind (data parent) = CALL_EXPR) ->
     __extract_dependent_type_kind c = Ok CXX_METHOD
     /\ get_ast_node_id c = Ok Method)
  /\ (~ (exists parent, p = Some parent /\ kind (data parent) = CALL_EXPR) ->
     __extract_dependent_type_kind c = Ok FIELD_DECL
     /\ get_ast_node_id c = Ok Field).
Proof.
  intros Hdep Hkind Hpar (token & Hin & Hq).
  destruct (first_qualifying_some c) as (t & Ht & _).
  { exists token. split; [exact Hin |]. apply qualifying_spec. exact Hq. }
  unfold get_ast_node_id, __extract_dependent_type_kind.
  rewrite (bool_decide_eq_true_2 _ Hdep), (bool_decide_eq_true_2 _ Hkind), Hpar, Ht.
  simpl. split.
  - intros (parent & -> & Hcall). simpl.
    rewrite (bool_decide_eq_true_2 _ Hcall). split; reflexivity.
  - intros Hno. destruct p as [parent|]; simpl.
    + destruct (bool_decide (kind (data parent) = CALL_EXPR)) eqn:Hc.
      * exfalso. apply Hno. exists parent. split; [reflexivity |].
        apply bool_decide_eq_true in Hc. exact Hc.
      * split; reflexivity.
    + split; reflexivity.
Qed.

(** C7 at [x.foo()]: below the call the member access is a method, below
    the unit's root it is a data field. *)
Lemma dependent_member_kind_by_parent_witness :
  __extract_dependent_type_kind member_in_call = Ok CXX_METHOD
  /\ __extract_dependent_type_kind member_in_unit = Ok FIELD_DECL.
Proof.
  assert (Htok : exists token, token ∈ member_tokens /\ tok_kind token = IDENTIFIER
            /\ tok_cursor_kind token = MEMBER_REF_EXPR
            /\ tok_cursor_extent token = member_extent).
  { exists foo_token. split; [| repeat split].
    apply list_elem_of_In. simpl. tauto. }
  split.
  - apply (dependent_member_kind_by_parent member_in_call
             (Some (callback_cursor call_node))); try reflexivity; [exact Htok |].
    eexists. split; reflexivity.
  - apply (dependent_member_kind_by_parent member_in_unit
             (Some (callback_cursor (tu_root template_unit)))); try reflexivity;
      [exact Htok |].
    intros (parent & [= <-] & Hk). discriminate Hk.
Defined.




(** ** Traversal *)

Lemma Node_induction (P : Node -> Prop) :
  (forall d children, Forall P children -> P (mkNode d children)) ->
  forall n, P n.
Proof.
  intros step. fix IH 1. intros [d children]. apply step.
  induction children as [|child rest IHrest]; constructor; [apply IH | exact IHrest].
Qed.

Lemma descendants_unfold (n : Node) :
  descendants n = List.flat_map (fun child => child :: descendants child) (node_children n).
Proof. destruct n; reflexivity. Qed.

Lemma descendants_children (n child : Node) :
  child ∈ node_children n -> child ∈ descendants n.
Proof.
  intros Hin. rewrite descendants_unfold. apply list_elem_of_In, in_flat_map.
  exists child. split; [apply list_elem_of_In, Hin | left; reflexivity].
Qed.

Lemma descendants_trans (n child x : Node) :
  child ∈ node_children n -> x ∈ descendants child -> x ∈ descendants n.
Proof.
  intros Hin Hx. rewrite descendants_unfold. apply list_elem_of_In, in_flat_map.
  exists child. split; [apply list_elem_of_In, Hin | right; apply list_elem_of_In, Hx].
Qed.

Lemma clang_visitChildren_unfold {D} (v : Visitor) (parent : Node) (d : D) :
  clang_visitChildren v parent d
  = visit_siblings (clang_visitChildren v) v parent (node_children parent) d.
Proof. destruct parent; reflexivity. Qed.

Section WalkInvariant.
Context {D : Type} (I : D -> Prop) (v : Visitor (D := D)) (root : Node).

(** What the visitor is asked to preserve: [I], at every node below the
    root, called with the node's own parent. *)
Hypothesis visitor_keeps :
  forall child parent d r d',
    child ∈ descendants root -> child ∈ node_children parent ->
    I d -> v (callback_cursor child) (callback_cursor parent) d = Ok (r, d') -> I d'.

Lemma visit_siblings_invariant (parent : Node) (l : list Node) :
  (forall x, x ∈ l -> x ∈ node_children parent /\ x ∈ descendants root) ->
  Forall (fun child =>
            (forall x, x ∈ descendants child -> x ∈ descendants root) ->
            forall d b d', I d -> clang_visitChildren v child d = Ok (b, d') -> I d') l ->
  (forall child x, child ∈ l -> x ∈ descendants child -> x ∈ descendants root) ->
  forall d b d', I d ->
    visit_siblings (clang_visitChildren v) v parent l d = Ok (b, d') -> I d'.
Proof.
  induction l as [|child rest IHrest]; intros Hl Hbelow Hdesc d b d' Hd Hrun.
  - simpl in Hrun. injection Hrun as _ <-. exact Hd.
  - simpl in Hrun.
    destruct (v (callback_cursor child) (callback_cursor parent) d) as [[r d1]|e] eqn:Hv;
      [| discriminate].
    simpl in Hrun.
    assert (Hd1 : I d1).
    { destruct (Hl child) as [Hc Hr]; [left |].
      exact (visitor_keeps child parent d r d1 Hr Hc Hd Hv). }
    assert (Hrest : forall d2 b d', I d2 ->
              visit_siblings (clang_visitChildren v) v parent rest d2 = Ok (b, d') -> I d').
    { apply IHrest.
      - intros x Hx. apply Hl. right. exact Hx.
      - inversion Hbelow; assumption.
      - intros c x Hc. apply Hdesc. right. exact Hc. }
    destruct r.
    + injection Hrun as _ <-. exact Hd1.
    + exact (Hrest _ _ _ Hd1 Hrun).
    + destruct (clang_visitChildren v child d1) as [[stop d2]|e] eqn:Hsub; [| discriminate].
      simpl in Hrun.
      assert (Hd2 : I d2).
      { inversion Hbelow as [|? ? Hchild _]; subst.
        apply (Hchild (fun x Hx => Hdesc child x ltac:(left) Hx) d1 stop d2 Hd1 Hsub). }
      destruct stop.
      * injection Hrun as _ <-. exact Hd2.
      * exact (Hrest _ _ _ Hd2 Hrun).
Qed.

End WalkInvariant.

(** A walk keeps every property of the client data that the visitor keeps
    at the nodes below the root. *)
Lemma clang_visitChildren_invariant {D} (I : D -> Prop) (v : Visitor (D := D)) (root : Node) :
  (forall child parent d r d',
     child ∈ descendants root -> child ∈ node_children parent ->
     I d -> v (callback_cursor child) (callback_cursor parent) d = Ok (r, d') -> I d') ->
  forall d b d', I d -> clang_visitChildren v root d = Ok (b, d') -> I d'.
Proof.
  intros Hkeep.
  assert (Hgen : forall n, (forall x, x ∈ descendants n -> x ∈ descendants root) ->
            forall d b d', I d -> clang_visitChildren v n d = Ok (b, d') -> I d').
  { intros n. induction n as [nd children IH] using Node_induction.
    intros Hsub d b d' Hd Hrun. rewrite clang_visitChildren_unfold in Hrun. simpl in Hrun.
    apply (visit_siblings_invariant I v root Hkeep (mkNode nd children) children)
      with (d := d) (b := b); try assumption.
    - intros x Hx. split; [exact Hx |].
      apply Hsub, descendants_children. exact Hx.
    - intros child x Hc Hx. apply Hsub.
      apply (descendants_trans (mkNode nd children) child x); assumption. }
  apply Hgen. auto.
Qed.

(** A walk with a visitor that never raises never raises. *)
Lemma clang_visitChildren_total {D} (v : Visitor (D := D)) :
  (forall child parent d, exists r d', v child parent d = Ok (r, d')) ->
  forall root d, exists b d', clang_visitChildren v root d = Ok (b, d').
Proof.
  intros Hv root. induction root as [nd children IH] using Node_induction.
  intros d. rewrite clang_visitChildren_unfold. simpl.
  generalize (mkNode nd children) as parent. intros parent. revert d.
  induction children as [|child rest IHrest]; intros d; simpl.
  - eauto.
  - destruct (Hv (callback_cursor child) (callback_cursor parent) d) as (r & d1 & ->). simpl.
    inversion IH as [|? ? Hchild Hrest]; subst.
    destruct r; [eauto | apply IHrest; assumption |].
    destruct (Hchild d1) as (stop & d2 & ->). simpl.
    destruct stop; [eauto | apply IHrest; assumption].
Qed.

Lemma attach_assigned (cursor child parent : Cursor) (tu : TranslationUnit) :
  _tu cursor = Assigned tu ->
  attach cursor child parent = Ok (mkCursor (native child) (Assigned tu) (Assigned (Some parent))).
Proof. intros H. unfold attach. rewrite H. reflexivity. Qed.





(** ** The store *)

Section StoreProperties.
Variable index_parse : string -> list string -> result TranslationUnit.

(** C2.  [run] never raises.  When the front-end raises, the parser comes
    back as it was, so every key, the parsed one included, still gives
    what it gave; when the front-end succeeds, the new unit is what the
    key gives, and the other keys are untouched. *)
Theorem run_keeps_entry_on_failure (self : ClangParser)
    (contents_filename original_filename : string)
    (compiler_args : list string) (project_root_directory : string) :
  exists self',
    run index_parse self contents_filename original_filename compiler_args
      project_root_directory = Ok self'
    /\ match index_parse contents_filename
               (default_args self ++ compiler_args
                  ++ ["-working-directory=" +:+ project_root_directory]) with
       | Raise _ =>
           self' = self
           /\ get_translation_unit self' original_filename
              = get_translation_unit self original_filename
       | Ok tu =>
           get_translation_unit self' original_filename = Some tu
           /\ (forall other, other <> original_filename ->
                 get_translation_unit self' other = get_translation_unit self other)
       end.
Proof.
  unfold run, try_except.
  destruct (index_parse _ _) as [tu|e]; simpl.
  - eexists. split; [reflexivity |]. unfold get_translation_unit. simpl. split.
    + apply lookup_insert_eq.
    + intros other Hne. apply lookup_insert_ne. congruence.
  - exists self. auto.
Qed.

End StoreProperties.

(** C2 on the scenario of the specification: a.cpp is parsed, then parsed
    again from a path the front-end rejects; the store still gives the
    first unit. *)
Lemma run_keeps_entry_on_failure_witness :
  exists first second,
    run parse_only_a fresh_store "/src/a.cpp" "a.cpp" [] "/src" = Ok first
    /\ run parse_only_a first "/nowhere/a.cpp" "a.cpp" [] "/src" = Ok second
    /\ get_translation_unit second "a.cpp" = Some unit_a.
Proof.
  destruct (run_keeps_entry_on_failure parse_only_a fresh_store
              "/src/a.cpp" "a.cpp" [] "/src") as (first & Hfirst & Hget1).
  destruct (run_keeps_entry_on_failure parse_only_a first
              "/nowhere/a.cpp" "a.cpp" [] "/src") as (second & Hsecond & Hkeep).
  exists first, second. split; [exact Hfirst |]. split; [exact Hsecond |].
  simpl in Hget1, Hkeep. destruct Hget1 as [Hget1 _]. destruct Hkeep as [_ Hkeep].
  rewrite Hkeep. exact Hget1.
Defined.

(** ** Reference search *)

(** C5.  Asked about a file that has no unit in the store,
    [find_all_references] raises nothing and returns the empty collection
    (the literal [[]] of line 280): it has no member. *)
Theorem find_all_references_unknown_file (self : ClangParser) (filename : string)
    (line column : Z) :
  tunits self !! filename = None ->
  find_all_references self filename line column = Ok (PyList [])
  /\ (exists r, find_all_references self filename line column = Ok r
        /\ members r = [] /\ forall loc, loc ∉ members r).
Proof.
  intros Hnone. unfold find_all_references. rewrite Hnone.
  split; [reflexivity |]. exists (PyList []). repeat split.
  intros loc Hin. inversion Hin.
Qed.

(** The witness: /src/c.cpp in a store that holds a.cpp and b.cpp. *)
Lemma find_all_references_unknown_file_witness :
  find_all_references two_units "/src/c.cpp" 1 6 = Ok (PyList []).
Proof.
  apply (find_all_references_unknown_file two_units "/src/c.cpp" 1 6).
  reflexivity.
Defined.

Lemma for_each_invariant {A S : Type} (J : S -> Prop) (body : S -> A -> result S)
    (xs : list A) :
  (forall s x, x ∈ xs -> J s -> exists s', body s x = Ok s' /\ J s') ->
  forall s, J s -> exists s', for_each body xs s = Ok s' /\ J s'.
Proof.
  induction xs as [|x rest IH]; intros Hbody s Hs; simpl.
  - eauto.
  - destruct (Hbody s x) as (s1 & -> & Hs1); [left | exact Hs |]. simpl.
    apply IH; [| exact Hs1]. intros s2 y Hy. apply Hbody. right. exact Hy.
Qed.

Lemma located_in_spec (d : CursorData) (filename : string) :
  located_in d filename = true <-> loc_file (location d) = Some (mkFile filename).
Proof.
  unfold located_in. destruct (loc_file (location d)) as [[name]|]; simpl.
  - rewrite bool_decide_eq_true. split; [intros ->; reflexivity | intros [= ->]; reflexivity].
  - split; discriminate.
Qed.

Lemma confirm_by_token_adds (d : CursorData) (node : Referenced + CursorData)
    (references : gset ISL) (loc : ISL) :
  loc ∈ confirm_by_token d node references ->
  loc ∈ references \/ loc = ImmutableSourceLocation.init (location d).
Proof.
  unfold confirm_by_token.
  destruct (List.find _ _) as [token|]; [| auto].
  destruct (bool_decide _); [| auto].
  rewrite elem_of_union, elem_of_singleton. tauto.
Qed.

(** One visit adds at most the location of the visited node, and only when
    that node lies in the file [filename] names at that moment. *)
Lemma visitor_adds_own_file (filename : string) (ast_node parent : Cursor)
    (cd cd' : client_data) (r : ChildVisitResult) (loc : ISL) :
  find_all_references_visitor filename ast_node parent cd = Ok (r, cd') ->
  loc ∈ cd_references cd' ->
  loc ∈ cd_references cd
  \/ (loc = ImmutableSourceLocation.init (location (data ast_node))
      /\ loc_file (location (data ast_node)) = Some (mkFile filename)).
Proof.
  unfold find_all_references_visitor. intros [= _ <-] Hin.
  destruct (located_in (data ast_node) filename) eqn:Hloc; [| auto].
  apply located_in_spec in Hloc.
  destruct (bool_decide (spelling_of _ = _)); [| auto].
  destruct (bool_decide (get_usr _ = _)); [| auto].
  simpl in Hin. apply confirm_by_token_adds in Hin as [Hin | ->]; auto.
Qed.

(** C1, as the code has it.  [find_all_references] always returns, and a
    location it reports is that of a node of some loaded unit whose file
    is the key of that very unit: while a unit is walked, a node located
    in any other file adds nothing. *)
Theorem find_all_references_own_file_of_each_unit (self : ClangParser)
    (filename : string) (line column : Z) :
  exists r,
    find_all_references self filename line column = Ok r
    /\ forall loc, loc ∈ members r -> from_unit_own_file self loc.
Proof.
  unfold find_all_references.
  destruct (tunits self !! filename) as [tu0|].
  2:{ exists (PyList []). split; [reflexivity |]. intros loc Hin. inversion Hin. }
  set (target := referenced_or_self (data (from_location tu0 line column))).
  destruct (for_each_invariant
              (fun refs : gset ISL => forall loc, loc ∈ refs -> from_unit_own_file self loc)
              (fun references '(filename, tunit) =>
                 '(_, cd) ← traverse (tu_cursor tunit) (mkClientData target references)
                              (find_all_references_visitor filename);
                 Ok (cd_references cd))
              (map_to_list (tunits self))) with (s := (∅ : gset ISL))
    as (refs & Hrun & Hrefs).
  - intros refs [key tu] Hin Hinv.
    apply elem_of_map_to_list in Hin.
    unfold traverse.
    set (v := fun child parent client_data =>
                child' ← attach (tu_cursor tu) child parent;
                find_all_references_visitor key child' parent client_data).
    assert (Hv : forall child parent d,
              v child parent d
              = find_all_references_visitor key
                  (mkCursor (native child) (Assigned tu) (Assigned (Some parent))) parent d).
    { intros. reflexivity. }
    destruct (clang_visitChildren_total v) with (root := native (tu_cursor tu))
                                              (d := mkClientData target refs)
      as (b & cd & Hwalk).
    { intros child parent d. rewrite Hv. unfold find_all_references_visitor. eauto. }
    rewrite Hwalk. simpl. eexists. split; [reflexivity |].
    apply (clang_visitChildren_invariant
             (fun cd => forall loc, loc ∈ cd_references cd -> from_unit_own_file self loc)
             v (tu_root tu)) with (d := mkClientData target refs) (b := b);
      [| exact Hinv | exact Hwalk].
    intros child parent d r d' Hbelow _ Hd Hstep loc Hloc.
    rewrite Hv in Hstep.
    destruct (visitor_adds_own_file _ _ _ _ _ _ _ Hstep Hloc) as [Hold | [-> Hfile]].
    + exact (Hd loc Hold).
    + exists key, tu, child. repeat split; assumption.
  - intros loc Hin. apply not_elem_of_empty in Hin. destruct Hin.
  - exists (PySet refs). rewrite Hrun. simpl. split; [reflexivity |].
    intros loc Hin. apply elem_of_elements in Hin. exact (Hrefs loc Hin).
Qed.

(** C1 as stated fails: asked about /src/a.cpp, the search also reports
    line 7, column 5 of /src/b.cpp, the location of a node of the unit of
    b.cpp that lies in b.cpp. *)
Lemma reference_from_other_unit_own_file :
  exists r,
    find_all_references two_units "/src/a.cpp" 1 6 = Ok r
    /\ ImmutableSourceLocation.init (at_file "/src/b.cpp" 7 5 61) ∈ members r
    /\ ImmutableSourceLocation.file (ImmutableSourceLocation.init (at_file "/src/b.cpp" 7 5 61))
       <> Some (mkFile "/src/a.cpp").
Proof.
  destruct (find_all_references two_units "/src/a.cpp" 1 6) as [r|e] eqn:Hrun;
    vm_compute in Hrun; [| discriminate].
  injection Hrun as <-. eexists. split; [reflexivity |]. split.
  - apply list_elem_of_In. vm_compute. tauto.
  - discriminate.
Qed.

#[local] Set Warnings "-clear-no-such-hyp".

(** ** Strings and paths *)

Lemma append_cons (x : ascii) (a b : string) : String x a +:+ b = String x (a +:+ b).
Proof. reflexivity. Qed.

Lemma append_nil_l (b : string) : "" +:+ b = b.
Proof. reflexivity. Qed.

Ltac str_simpl := rewrite ?append_cons, ?append_nil_l; simpl.
Ltac str_simpl_in H := rewrite ?append_cons, ?append_nil_l in H; simpl in H.

Lemma append_assoc (a b c : string) : (a +:+ b) +:+ c = a +:+ (b +:+ c).
Proof. induction a as [|x a IH]; str_simpl; [reflexivity | rewrite IH; reflexivity]. Qed.

Lemma append_length (a b : string) :
  String.length (a +:+ b) = (String.length a + String.length b)%nat.
Proof. induction a as [|x a IH]; str_simpl; [reflexivity | rewrite IH; reflexivity]. Qed.

Lemma substring_whole (s : string) : String.substring 0 (String.length s) s = s.
Proof. induction s as [|x s IH]; simpl; [reflexivity | rewrite IH; reflexivity]. Qed.

Lemma substring_head (a b : string) :
  String.substring 0 (String.length a) (a +:+ b) = a.
Proof.
  induction a as [|x a IH]; str_simpl.
  - destruct b; reflexivity.
  - rewrite IH. reflexivity.
Qed.

Lemma substring_skip (a b : string) (n : nat) :
  String.substring (String.length a) n (a +:+ b) = String.substring 0 n b.
Proof. induction a as [|x a IH]; str_simpl; [reflexivity | exact IH]. Qed.

Lemma substring_middle (a b c : string) :
  String.substring (String.length a) (String.length b) (a +:+ b +:+ c) = b.
Proof. rewrite substring_skip. apply substring_head. Qed.

Lemma prefix_append (a b : string) : String.prefix a (a +:+ b) = true.
Proof.
  induction a as [|x a IH]; str_simpl.
  - destruct b; reflexivity.
  - destruct (ascii_dec x x) as [_|Hne]; [exact IH | congruence].
Qed.

Lemma rfind_append (c : ascii) (a b : string) :
  rfind c (a +:+ b)
  = match rfind c b with
    | Some i => Some (String.length a + i)%nat
    | None => rfind c a
    end.
Proof.
  induction a as [|x a IH]; str_simpl.
  - destruct (rfind c b); reflexivity.
  - rewrite IH. destruct (rfind c b); reflexivity.
Qed.

Lemma startswith_sep_no_sep (s : string) : rfind sep s = None -> startswith_sep s = false.
Proof.
  destruct s as [|x s]; simpl; [reflexivity |].
  destruct (rfind sep s); [discriminate |].
  destruct (bool_decide (x = sep)); [discriminate | reflexivity].
Qed.

Lemma endswith_sep_append (a b : string) :
  b <> "" -> endswith_sep (a +:+ b) = endswith_sep b.
Proof.
  intros Hb. induction a as [|x a IH]; str_simpl; [reflexivity |].
  rewrite IH. destruct (a +:+ b) eqn:Hab; [| reflexivity].
  destruct a; str_simpl_in Hab; [contradiction | discriminate].
Qed.

(** The extension of [base.ast] is [.ast] unless [base] is dots only. *)
Lemma splitext_ast (base : string) :
  rfind sep base = None -> all_chars dot base = false ->
  os_path_splitext (base +:+ ".ast") = (base, ".ast").
Proof.
  intros Hsep Hdots. unfold os_path_splitext.
  rewrite !rfind_append, Hsep. simpl.
  rewrite Nat.add_0_r, Nat.sub_0_r, substring_head, Hdots. simpl.
  rewrite append_length, Nat.add_comm, Nat.add_sub, substring_skip. reflexivity.
Qed.

Lemma rsplit_sep_none_append (s x : string) :
  rsplit_sep s = None -> rsplit_sep x = None -> rsplit_sep (s +:+ x) = None.
Proof.
  intros Hs Hx. induction s as [|y s IHs]; str_simpl; [exact Hx |].
  simpl in Hs. destruct (rsplit_sep s) as [[? ?]|]; [discriminate |].
  destruct (bool_decide (y = sep)); [discriminate |].
  rewrite IHs; reflexivity.
Qed.

Lemma rsplit_sep_none_rfind (s : string) : rsplit_sep s = None -> rfind sep s = None.
Proof.
  induction s as [|y s IHs]; simpl; [reflexivity |].
  destruct (rsplit_sep s) as [[? ?]|]; [discriminate |].
  destruct (bool_decide (y = sep)); [discriminate |]. intros _. rewrite IHs; reflexivity.
Qed.

Lemma rsplit_sep_spec (s h t : string) :
  rsplit_sep s = Some (h, t) ->
  s = h +:+ t /\ endswith_sep h = true /\ rsplit_sep t = None.
Proof.
  revert h t. induction s as [|x s IH]; intros h t Hs; simpl in Hs; [discriminate |].
  destruct (rsplit_sep s) as [[h' t']|] eqn:Hrec.
  - injection Hs as <- <-. destruct (IH h' t' eq_refl) as (-> & Hend & Hno).
    repeat split; [| exact Hno]. simpl. rewrite Hend. destruct h'; [discriminate | reflexivity].
  - destruct (bool_decide (x = sep)) eqn:Hx; [| discriminate].
    injection Hs as <- <-. simpl. rewrite Hx. repeat split. exact Hrec.
Qed.

Lemma rsplit_sep_prepend (p s h t : string) :
  rsplit_sep s = Some (h, t) -> rsplit_sep (p +:+ s) = Some (p +:+ h, t).
Proof.
  intros Hs. induction p as [|x p IH]; str_simpl; [exact Hs |]. rewrite IH. reflexivity.
Qed.

Lemma rsplit_sep_extend (s h t x : string) :
  rsplit_sep s = Some (h, t) -> rsplit_sep x = None ->
  rsplit_sep (s +:+ x) = Some (h, t +:+ x).
Proof.
  intros Hs Hx. revert h t Hs. induction s as [|c s IH]; intros h t Hs;
    [discriminate |].
  str_simpl. simpl in Hs.
  destruct (rsplit_sep s) as [[h' t']|] eqn:Hrec.
  - injection Hs as <- <-. rewrite (IH h' t' eq_refl). reflexivity.
  - destruct (bool_decide (c = sep)) eqn:Hc; [| discriminate].
    injection Hs as <- <-.
    rewrite (rsplit_sep_none_append s x Hrec Hx). reflexivity.
Qed.

(** Joining what [rsplit_sep] took apart gives the path back. *)
Lemma join_rsplit_sep (q h t : string) :
  rsplit_sep q = Some (h, t) -> os_path_join h t = q.
Proof.
  intros Hq. destruct (rsplit_sep_spec q h t Hq) as (-> & Hend & Hno).
  unfold os_path_join.
  rewrite (startswith_sep_no_sep t (rsplit_sep_none_rfind t Hno)), Hend, orb_true_r.
  reflexivity.
Qed.

(** ** Loading *)

Lemma for_each_st_invariant {A S : Type} (J : S -> Prop)
    (body : A -> S -> result unit * S) (xs : list A) :
  (forall x s r s', x ∈ xs -> J s -> body x s = (r, s') -> J s') ->
  forall s r s', J s -> for_each_st body xs s = (r, s') -> J s'.
Proof.
  induction xs as [|x rest IH]; intros Hbody s r s' Hs Hrun; simpl in Hrun.
  - injection Hrun as _ <-. exact Hs.
  - destruct (body x s) as [[[]|e] s1] eqn:Hx.
    + apply (IH (fun y t r t' Hy => Hbody y t r t' (list_elem_of_further _ _ _ Hy)) s1 r s');
        [| exact Hrun].
      apply (Hbody x s (Ok tt) s1); [left | exact Hs | exact Hx].
    + injection Hrun as _ <-.
      apply (Hbody x s (Raise e) s1); [left | exact Hs | exact Hx].
Qed.

(** A loop that raised did so in one of its iterations. *)
Lemma for_each_st_raise {A S : Type} (body : A -> S -> result unit * S) (xs : list A)
    (s s' : S) (e : exn) :
  for_each_st body xs s = (Raise e, s') ->
  exists x t, x ∈ xs /\ body x t = (Raise e, s').
Proof.
  revert s. induction xs as [|x rest IH]; intros s Hrun; simpl in Hrun; [discriminate |].
  destruct (body x s) as [[[]|e1] s1] eqn:Hx.
  - destruct (IH s1 Hrun) as (y & t & Hy & Hbody). exists y, t. split; [right; exact Hy | exact Hbody].
  - injection Hrun as <- <-. exists x, s. split; [left | exact Hx].
Qed.

(** What [os.walk] hands to the loop: one file per entry, below the root,
    split after its last separator. *)
Lemma os_walk_entry (top : string) (disk : Disk) (entry : string * list string) :
  entry ∈ os_walk top disk ->
  exists q dirpath file,
    entry = (dirpath, [file]) /\ is_Some (files disk !! q)
    /\ under top q = true /\ rsplit_sep q = Some (dirpath, file).
Proof.
  unfold os_walk. rewrite list_elem_of_omap. intros (q & Hq & Hentry).
  apply list_elem_of_fmap in Hq as ([q' c] & -> & Hin). simpl in *.
  apply elem_of_map_to_list in Hin.
  destruct (under top q') eqn:Hunder; [| discriminate].
  destruct (rsplit_sep q') as [[dirpath file]|] eqn:Hsplit; [| discriminate].
  simpl in Hentry. injection Hentry as <-.
  exists q', dirpath, file. rewrite Hin. eauto.
Qed.

Lemma index_read_ok (path : string) (disk : Disk) (tu : TranslationUnit) :
  index_read path disk = Ok tu <-> files disk !! path = Some (SerializedAst tu).
Proof.
  unfold index_read. destruct (files disk !! path) as [[tu'|]|]; split;
    intros H; try discriminate; congruence.
Qed.

Lemma load_body_keeps_read_from_disk (root_dir : string) (disk : Disk)
    (entry : string * list string) (m m' : gmap string TranslationUnit) (r : result unit) :
  entry ∈ os_walk root_dir disk ->
  read_from_disk root_dir disk m ->
  load_body root_dir disk entry m = (r, m') ->
  read_from_disk root_dir disk m'.
Proof.
  intros Hentry Hm Hrun.
  destruct (os_walk_entry _ _ _ Hentry) as (q & dirpath & file & -> & _ & Hunder & Hsplit).
  unfold load_body in Hrun. simpl in Hrun. unfold load_file in Hrun.
  rewrite (join_rsplit_sep q dirpath file Hsplit) in Hrun.
  destruct (os_path_splitext file) as [name extension].
  destruct (bool_decide (extension = ".ast")).
  - destruct (index_read q disk) as [tu|e] eqn:Hread.
    + injection Hrun as _ <-. intros key tu' Hkey.
      destruct (decide (key = original_filename_of root_dir q)) as [->|Hne].
      * rewrite lookup_insert_eq in Hkey. injection Hkey as <-.
        exists q. apply index_read_ok in Hread. auto.
      * rewrite lookup_insert_ne in Hkey by congruence. exact (Hm key tu' Hkey).
    + injection Hrun as _ <-. exact Hm.
  - injection Hrun as _ <-. exact Hm.
Qed.

Lemma load_body_raise (root_dir : string) (disk : Disk) (entry : string * list string)
    (m m' : gmap string TranslationUnit) (e : exn) :
  entry ∈ os_walk root_dir disk ->
  load_body root_dir disk entry m = (Raise e, m') ->
  exists path file,
    under root_dir path = true /\ is_Some (files disk !! path)
    /\ (exists dirpath, rsplit_sep path = Some (dirpath, file))
    /\ snd (os_path_splitext file) = ".ast"
    /\ index_read path disk = Raise e.
Proof.
  intros Hentry Hrun.
  destruct (os_walk_entry _ _ _ Hentry) as (q & dirpath & file & -> & Hq & Hunder & Hsplit).
  unfold load_body in Hrun. simpl in Hrun. unfold load_file in Hrun.
  rewrite (join_rsplit_sep q dirpath file Hsplit) in Hrun.
  destruct (os_path_splitext file) as [name extension] eqn:Hext.
  destruct (bool_decide (extension = ".ast")) eqn:Hast; [| discriminate].
  apply bool_decide_eq_true in Hast.
  destruct (index_read q disk) as [tu|e'] eqn:Hread; [discriminate |].
  injection Hrun as <- _. exists q, file. rewrite Hext. simpl. eauto 10.
Qed.

(** C10.  [load_from_disk] empties the store before it reads anything:
    what comes back does not depend on what the store held.  Whatever the
    outcome, each unit in the store afterwards was read from a file below
    the root during this call; and when the call reports failure, some
    [.ast] file below the root could not be read, and the store holds only
    what had been read before it. *)
Theorem load_from_disk_clears_first (self : ClangParser) (root_dir : string) (disk : Disk) :
  load_from_disk self root_dir disk
    = load_from_disk (drop_all_translation_units self) root_dir disk
  /\ (forall held, load_from_disk (set_tunits self held) root_dir disk
                   = load_from_disk self root_dir disk)
  /\ read_from_disk root_dir disk (tunits (snd (load_from_disk self root_dir disk)))
  /\ (fst (load_from_disk self root_dir disk) = false ->
        exists path file e,
          under root_dir path = true /\ is_Some (files disk !! path)
          /\ (exists dirpath, rsplit_sep path = Some (dirpath, file))
          /\ snd (os_path_splitext file) = ".ast"
          /\ index_read path disk = Raise e).
Proof.
  split; [reflexivity |]. split; [reflexivity |].
  unfold load_from_disk.
  destruct (for_each_st (load_body root_dir disk) (os_walk root_dir disk) ∅)
    as [r m] eqn:Hrun.
  assert (Hread : read_from_disk root_dir disk m).
  { apply (for_each_st_invariant (read_from_disk root_dir disk)
             (load_body root_dir disk) (os_walk root_dir disk)) with (s := ∅) (r := r);
      [| | exact Hrun].
    - intros entry s r' s' Hin Hs Hbody.
      exact (load_body_keeps_read_from_disk _ _ _ _ _ _ Hin Hs Hbody).
    - intros key tu Hkey. rewrite lookup_empty in Hkey. discriminate. }
  split.
  - destruct r; exact Hread.
  - destruct r as [[]|e]; simpl; [discriminate |]. intros _.
    destruct (for_each_st_raise _ _ _ _ _ Hrun) as (entry & t & Hin & Hbody).
    destruct (load_body_raise _ _ _ _ _ _ Hin Hbody) as (path & file & H).
    exists path, file, e. exact H.
Qed.

(** ** Keys and roots the layout is made for *)

Lemma components_no_sep (s : string) : rsplit_sep s = None -> components s = [s].
Proof.
  induction s as [|c s IH]; simpl; [reflexivity |].
  destruct (rsplit_sep s) as [[? ?]|]; [discriminate |].
  destruct (bool_decide (c = sep)); [discriminate |]. intros _.
  rewrite IH; reflexivity.
Qed.

Lemma components_last (s h t : string) :
  rsplit_sep s = Some (h, t) -> exists c0 cs, components s = c0 :: cs ++ [t].
Proof.
  revert h t. induction s as [|c s IH]; intros h t Hs; simpl in Hs; [discriminate |].
  simpl. destruct (rsplit_sep s) as [[h' t']|] eqn:Hrec.
  - injection Hs as <- <-. destruct (IH h' t' eq_refl) as (c0 & cs & ->).
    destruct (bool_decide (c = sep)).
    + exists "", (c0 :: cs). reflexivity.
    + exists (String c c0), cs. reflexivity.
  - destruct (bool_decide (c = sep)) eqn:Hc; [| discriminate].
    injection Hs as <- <-. rewrite (components_no_sep s Hrec).
    exists "", []. reflexivity.
Qed.

Lemma clean_last (s h t : string) :
  clean s = true -> rsplit_sep s = Some (h, t) -> all_chars dot t = false.
Proof.
  unfold clean. intros Hclean Hs.
  destruct (components_last s h t Hs) as (c0 & cs & Hcs). rewrite Hcs in Hclean.
  simpl in Hclean. rewrite forallb_app in Hclean. simpl in Hclean.
  destruct (all_chars dot t); [| reflexivity].
  rewrite !andb_false_r in Hclean. discriminate.
Qed.

Lemma clean_no_sep (s : string) :
  clean s = true -> rsplit_sep s = None -> all_chars dot s = false.
Proof.
  unfold clean. intros Hclean Hs. rewrite (components_no_sep s Hs) in Hclean.
  simpl in Hclean. destruct (all_chars dot s); [discriminate | reflexivity].
Qed.

Lemma clean_first (s : string) :
  clean s = true -> s <> "" /\ startswith_sep s = false.
Proof.
  unfold clean. destruct s as [|c s]; simpl; [discriminate |].
  destruct (bool_decide (c = sep)); simpl; [discriminate |]. auto.
Qed.

Lemma endswith_sep_rsplit (s : string) :
  endswith_sep s = true -> exists h, rsplit_sep s = Some (h, "").
Proof.
  induction s as [|c s IH]; simpl; [discriminate |].
  destruct s as [|c' s'].
  - intros Hc. simpl. rewrite Hc. eauto.
  - intros Hend. destruct (IH Hend) as (h & ->). eauto.
Qed.

Lemma clean_end (s : string) : clean s = true -> endswith_sep s = false.
Proof.
  intros Hclean. destruct (endswith_sep s) eqn:Hend; [| reflexivity].
  destruct (endswith_sep_rsplit s Hend) as (h & Hh).
  pose proof (clean_last s h "" Hclean Hh) as Hdots. discriminate.
Qed.

(** An absolute clean key is a separator followed by a path that does not
    start with one, and its file name has a character that is no dot. *)
Lemma absolute_key_shape (key : string) :
  absolute_key key = true ->
  exists r h base,
    key = String sep r /\ r <> "" /\ startswith_sep r = false
    /\ rsplit_sep key = Some (h, base) /\ all_chars dot base = false.
Proof.
  destruct key as [|c r]; simpl; [discriminate |].
  rewrite andb_true_iff, bool_decide_eq_true. intros [-> Hclean].
  destruct (clean_first r Hclean) as [Hne Hstart].
  destruct (rsplit_sep r) as [[h t]|] eqn:Hr.
  - exists r, (String sep h), t. repeat split; try assumption.
    exact (clean_last r h t Hclean Hr).
  - exists r, (String sep ""), r. repeat split; try assumption.
    exact (clean_no_sep r Hclean Hr).
Qed.

Lemma endswith_sep_cons (c : ascii) (r : string) :
  r <> "" -> endswith_sep (String c r) = endswith_sep r.
Proof. destruct r; [contradiction | reflexivity]. Qed.

Lemma plain_root_shape (root_dir : string) :
  plain_root root_dir = true -> root_dir <> "" /\ endswith_sep root_dir = false.
Proof.
  destruct root_dir as [|c r]; [discriminate |]. unfold plain_root.
  intros Hroot. split; [discriminate |].
  destruct (bool_decide (c = sep)).
  - destruct (clean_first r Hroot) as [Hne _].
    rewrite (endswith_sep_cons c r Hne). exact (clean_end r Hroot).
  - exact (clean_end (String c r) Hroot).
Qed.

(** ** Slices *)

Lemma slice_index_length (n : nat) : slice_index n (Z.of_nat n) = n.
Proof.
  unfold slice_index. destruct (Z.ltb_spec (Z.of_nat n) 0); [lia |].
  rewrite Nat2Z.id. apply Nat.min_id.
Qed.

Lemma slice_index_inside (n i : nat) : (i <= n)%nat -> slice_index n (Z.of_nat i) = i.
Proof.
  intros Hle. unfold slice_index. destruct (Z.ltb_spec (Z.of_nat i) 0); [lia |].
  rewrite Nat2Z.id. apply Nat.min_l. exact Hle.
Qed.

Lemma slice_index_from_end (n i : nat) :
  (0 < i <= n)%nat -> slice_index n (- Z.of_nat i) = (n - i)%nat.
Proof.
  intros Hle. unfold slice_index. destruct (Z.ltb_spec (- Z.of_nat i) 0); lia.
Qed.

(** [filename[1:len(filename)]] drops the first character. *)
Lemma slice_tail (c : ascii) (r : string) :
  py_slice (String c r) 1 (Z.of_nat (String.length (String c r))) = r.
Proof.
  unfold py_slice. rewrite slice_index_length.
  change 1%Z with (Z.of_nat 1). rewrite slice_index_inside by (simpl; lia).
  simpl. rewrite Nat.sub_0_r. apply substring_whole.
Qed.

(** [path[len(root_dir):-len('.ast')]] on [root_dir + key + '.ast']. *)
Lemma original_filename_of_ast (root_dir key : string) :
  original_filename_of root_dir (root_dir +:+ key +:+ ".ast") = key.
Proof.
  unfold original_filename_of, py_slice.
  rewrite !append_length. simpl String.length.
  rewrite slice_index_inside by lia.
  rewrite slice_index_from_end by lia.
  replace (String.length root_dir + (String.length key + 4) - 4 - String.length root_dir)%nat
    with (String.length key) by lia.
  apply substring_middle.
Qed.

(** ** Saving, then loading *)

Lemma startswith_sep_append (r x : string) :
  r <> "" -> startswith_sep (r +:+ x) = startswith_sep r.
Proof. destruct r; [contradiction | reflexivity]. Qed.

(** For a clean root and an absolute clean key, the file is written at
    [root_dir + key + '.ast']. *)
Lemma ast_path_shape (root_dir key : string) :
  plain_root root_dir = true -> absolute_key key = true ->
  ast_path root_dir key = root_dir +:+ key +:+ ".ast".
Proof.
  intros Hroot Hkey.
  destruct (plain_root_shape root_dir Hroot) as [Hne Hend].
  destruct (absolute_key_shape key Hkey) as (r & h & base & -> & Hr & Hstart & _).
  unfold ast_path. rewrite slice_tail. unfold os_path_join.
  rewrite (startswith_sep_append r ".ast" Hr), Hstart, Hend.
  rewrite (bool_decide_eq_false_2 _ Hne). reflexivity.
Qed.

Lemma under_ast (root_dir key : string) :
  plain_root root_dir = true -> absolute_key key = true ->
  under root_dir (root_dir +:+ key +:+ ".ast") = true.
Proof.
  intros Hroot Hkey.
  destruct (plain_root_shape root_dir Hroot) as [Hne Hend].
  destruct (absolute_key_shape key Hkey) as (r & h & base & -> & Hr & _).
  unfold under, dir_prefix. rewrite Hend, (bool_decide_eq_false_2 _ Hne). simpl.
  change (root_dir +:+ String sep r +:+ ".ast")
    with (root_dir +:+ "/" +:+ (r +:+ ".ast")).
  rewrite <- append_assoc, prefix_append. simpl.
  apply Nat.ltb_lt. rewrite !append_length. simpl.
  destruct r; [contradiction | simpl; lia].
Qed.

Lemma rsplit_sep_ast (root_dir key h base : string) :
  rsplit_sep key = Some (h, base) ->
  rsplit_sep (root_dir +:+ key +:+ ".ast") = Some (root_dir +:+ h, base +:+ ".ast").
Proof.
  intros Hkey. apply rsplit_sep_prepend. apply rsplit_sep_extend; [exact Hkey | reflexivity].
Qed.

(** Loading the file written for an absolute clean key files the unit
    under that key. *)
Lemma load_body_saved (root_dir key dirpath file : string) (disk : Disk)
    (tu : TranslationUnit) :
  absolute_key key = true ->
  files disk !! (root_dir +:+ key +:+ ".ast") = Some (SerializedAst tu) ->
  rsplit_sep (root_dir +:+ key +:+ ".ast") = Some (dirpath, file) ->
  entry_key root_dir (dirpath, [file]) = key
  /\ forall m, load_body root_dir disk (dirpath, [file]) m = (Ok tt, <[key := tu]> m).
Proof.
  intros Hkey Hfile Hsplit.
  destruct (absolute_key_shape key Hkey) as (r & h & base & Heq & _ & _ & Hk & Hdots).
  rewrite (rsplit_sep_ast root_dir key h base Hk) in Hsplit.
  injection Hsplit as <- <-.
  pose proof (join_rsplit_sep _ _ _ (rsplit_sep_ast root_dir key h base Hk)) as Hjoin.
  destruct (rsplit_sep_spec key h base Hk) as (_ & _ & Hbase).
  split.
  - unfold entry_key. simpl. rewrite Hjoin. apply original_filename_of_ast.
  - intros m. unfold load_body. simpl. unfold load_file.
    rewrite (splitext_ast base (rsplit_sep_none_rfind base Hbase) Hdots).
    rewrite (bool_decide_eq_true_2 _ eq_refl), Hjoin.
    apply index_read_ok in Hfile. rewrite Hfile, original_filename_of_ast. reflexivity.
Qed.

Section SaveLoop.
Variable may_write : string -> bool.
Variable root_dir : string.

Lemma save_body_files (key : string) (tu : TranslationUnit) (disk disk' : Disk) :
  save_body may_write root_dir (key, tu) disk = (Ok tt, disk') ->
  files disk' = <[ast_path root_dir key := SerializedAst tu]> (files disk).
Proof.
  unfold save_body, os_makedirs, tunit_save.
  destruct (negb (os_path_exists _ disk)).
  - destruct (may_write (os_path_dirname _)); [| discriminate]. simpl.
    destruct (may_write (ast_path root_dir key)); [| discriminate].
    intros [= <-]. reflexivity.
  - destruct (may_write (ast_path root_dir key)); [| discriminate].
    intros [= <-]. reflexivity.
Qed.

(** A serialized unit on disk is still one after the rest of the loop. *)
Lemma save_loop_keeps_ast (items : list (string * TranslationUnit)) (disk disk' : Disk) :
  for_each_st (save_body may_write root_dir) items disk = (Ok tt, disk') ->
  forall q tu, files disk !! q = Some (SerializedAst tu) ->
    exists tu', files disk' !! q = Some (SerializedAst tu').
Proof.
  revert disk. induction items as [|[key tu0] rest IH]; intros disk Hrun q tu Hq;
    cbn [for_each_st] in Hrun.
  - injection Hrun as <-. eauto.
  - destruct (save_body may_write root_dir (key, tu0) disk) as [[[]|e] disk1] eqn:Hstep;
      [| discriminate].
    apply save_body_files in Hstep.
    destruct (decide (q = ast_path root_dir key)) as [->|Hne].
    + apply (IH disk1 Hrun _ tu0). rewrite Hstep. apply lookup_insert_eq.
    + apply (IH disk1 Hrun _ tu). rewrite Hstep, lookup_insert_ne by congruence. exact Hq.
Qed.

(** After a save that went through: every item has its file, and a file
    is either one the save wrote or one that was there before. *)
Lemma save_loop_files (items : list (string * TranslationUnit)) (disk disk' : Disk) :
  for_each_st (save_body may_write root_dir) items disk = (Ok tt, disk') ->
  (forall key tu, (key, tu) ∈ items ->
     exists tu', files disk' !! ast_path root_dir key = Some (SerializedAst tu'))
  /\ (forall q c, files disk' !! q = Some c ->
        files disk !! q = Some c
        \/ exists key tu tu', (key, tu) ∈ items /\ q = ast_path root_dir key
                              /\ c = SerializedAst tu').
Proof.
  revert disk. induction items as [|[key tu0] rest IH]; intros disk Hrun;
    cbn [for_each_st] in Hrun.
  - injection Hrun as <-. split; [intros key tu Hin; inversion Hin | auto].
  - destruct (save_body may_write root_dir (key, tu0) disk) as [[[]|e] disk1] eqn:Hstep;
      [| discriminate].
    apply save_body_files in Hstep.
    destruct (IH disk1 Hrun) as [Hall Honly]. split.
    + intros k tu Hin. apply elem_of_cons in Hin as [[= -> ->]|Hin].
      * apply (save_loop_keeps_ast rest disk1 disk' Hrun _ tu0).
        rewrite Hstep. apply lookup_insert_eq.
      * exact (Hall k tu Hin).
    + intros q c Hq. destruct (Honly q c Hq) as [Hold | (k & tu & tu' & Hin & -> & ->)].
      * rewrite Hstep in Hold.
        destruct (decide (q = ast_path root_dir key)) as [->|Hne].
        -- rewrite lookup_insert_eq in Hold. injection Hold as <-.
           right. exists key, tu0, tu0. split; [left | auto].
        -- rewrite lookup_insert_ne in Hold by congruence. auto.
      * right. exists k, tu, tu'. split; [right; exact Hin | auto].
Qed.

End SaveLoop.

(** A load in which every entry can be read files each entry's key. *)
Lemma load_loop_all (root_dir : string) (disk : Disk)
    (entries : list (string * list string)) :
  (forall entry, entry ∈ entries ->
     exists tu, forall m,
       load_body root_dir disk entry m = (Ok tt, <[entry_key root_dir entry := tu]> m)) ->
  forall m, exists m',
    for_each_st (load_body root_dir disk) entries m = (Ok tt, m')
    /\ dom m' = dom m ∪ list_to_set (entry_key root_dir <$> entries).
Proof.
  induction entries as [|entry rest IH]; intros Hall m; simpl.
  - exists m. split; [reflexivity |]. set_solver.
  - destruct (Hall entry) as (tu & Hentry); [left |]. rewrite Hentry.
    destruct (IH (fun e He => Hall e (list_elem_of_further _ _ _ He))
                 (<[entry_key root_dir entry := tu]> m)) as (m' & Hrun & Hdom).
    exists m'. split; [exact Hrun |]. rewrite Hdom, dom_insert_L. set_solver.
Qed.

(** C4, as the code has it.  Take a root directory that is a clean path
    and a store whose keys are absolute clean paths, a disk with nothing
    below the root, and a save that reported success.  Loading that root
    into any store then reports success and leaves the store with exactly
    the keys that were saved, each recovered by cutting the root off the
    front and [.ast] off the back of the file's path. *)
Theorem save_then_load_same_keys (may_write : string -> bool)
    (self other : ClangParser) (root_dir : string) (disk disk' : Disk) :
  plain_root root_dir = true ->
  (forall key, key ∈ dom (tunits self) -> absolute_key key = true) ->
  (forall q, under root_dir q = true -> files disk !! q = None) ->
  save_to_disk may_write self root_dir disk = (true, disk') ->
  exists loaded,
    load_from_disk other root_dir disk' = (true, loaded)
    /\ dom (tunits loaded) = dom (tunits self)
    /\ (forall key, key ∈ dom (tunits self) ->
          original_filename_of root_dir (ast_path root_dir key) = key).
Proof.
  intros Hroot Hkeys Hfresh Hsave.
  unfold save_to_disk in Hsave.
  destruct (for_each_st (save_body may_write root_dir) (map_to_list (tunits self)) disk)
    as [[[]|e] d] eqn:Hloop; [| discriminate].
  injection Hsave as ->.
  destruct (save_loop_files may_write root_dir _ _ _ Hloop) as [Hall Honly].
  assert (Hitem : forall key tu, (key, tu) ∈ map_to_list (tunits self) ->
            absolute_key key = true).
  { intros key tu Hin. apply Hkeys, elem_of_dom. exists tu.
    apply elem_of_map_to_list. exact Hin. }
  (* every file below the root was written by the save *)
  assert (Hwritten : forall q, is_Some (files disk' !! q) -> under root_dir q = true ->
            exists key tu', key ∈ dom (tunits self)
              /\ q = root_dir +:+ key +:+ ".ast"
              /\ files disk' !! q = Some (SerializedAst tu')).
  { intros q [c Hq] Hunder. destruct (Honly q c Hq) as [Hold | (k & tu & tu' & Hin & -> & ->)].
    - rewrite (Hfresh q Hunder) in Hold. discriminate.
    - exists k, tu'. rewrite <- (ast_path_shape root_dir k Hroot (Hitem k tu Hin)).
      split; [| split; [reflexivity | exact Hq]].
      apply elem_of_dom. exists tu. apply elem_of_map_to_list. exact Hin. }
  assert (Hentry : forall entry, entry ∈ os_walk root_dir disk' ->
            exists key tu, key ∈ dom (tunits self)
              /\ entry_key root_dir entry = key
              /\ forall m, load_body root_dir disk' entry m = (Ok tt, <[key := tu]> m)).
  { intros entry Hin.
    destruct (os_walk_entry _ _ _ Hin) as (q & dirpath & file & -> & Hq & Hunder & Hsplit).
    destruct (Hwritten q Hq Hunder) as (key & tu' & Hkey & -> & Hfile).
    destruct (load_body_saved root_dir key dirpath file disk' tu'
                (Hkeys key Hkey) Hfile Hsplit) as [Hk Hload].
    exists key, tu'. auto. }
  destruct (load_loop_all root_dir disk' (os_walk root_dir disk')) with (m := (∅ : gmap string TranslationUnit))
    as (m' & Hrun & Hdom).
  { intros entry Hin. destruct (Hentry entry Hin) as (key & tu & _ & -> & Hload).
    exists tu. exact Hload. }
  exists (set_tunits other m'). unfold load_from_disk. rewrite Hrun.
  split; [reflexivity |]. split.
  - simpl. rewrite Hdom, dom_empty_L, (left_id_L ∅ (∪)).
    apply set_eq. intros key. rewrite elem_of_list_to_set, list_elem_of_fmap. split.
    + intros (entry & -> & Hin).
      destruct (Hentry entry Hin) as (key & tu & Hkey & -> & _). exact Hkey.
    + intros Hkey. apply elem_of_dom in Hkey as [tu Htu].
      apply elem_of_map_to_list in Htu.
      destruct (Hall key tu Htu) as (tu' & Hfile).
      pose proof (Hitem key tu Htu) as Habs.
      rewrite (ast_path_shape root_dir key Hroot Habs) in Hfile.
      destruct (absolute_key_shape key Habs) as (r & h & base & _ & _ & _ & Hk & _).
      pose proof (rsplit_sep_ast root_dir key h base Hk) as Hsplit.
      destruct (load_body_saved root_dir key _ _ disk' tu' Habs Hfile Hsplit) as [Hek _].
      exists (root_dir +:+ h, [base +:+ ".ast"]). split; [symmetry; exact Hek |].
      unfold os_walk. apply list_elem_of_omap.
      exists (root_dir +:+ key +:+ ".ast"). split.
      * apply list_elem_of_fmap. exists (root_dir +:+ key +:+ ".ast", SerializedAst tu').
        split; [reflexivity |]. apply elem_of_map_to_list. exact Hfile.
      * rewrite (under_ast root_dir key Hroot Habs), Hsplit. reflexivity.
  - intros key Hkey. rewrite (ast_path_shape root_dir key Hroot (Hkeys key Hkey)).
    apply original_filename_of_ast.
Qed.

(** The witness: the store that holds /src/a.cpp, saved below /idx on an
    empty disk that accepts every write. *)
Lemma save_then_load_same_keys_witness :
  exists loaded,
    load_from_disk fresh_store "/idx"
      (snd (save_to_disk (fun _ => true) absolute_key_store "/idx" empty_disk))
    = (true, loaded)
    /\ dom (tunits loaded) = dom (tunits absolute_key_store).
Proof.
  destruct (save_then_load_same_keys (fun _ => true) absolute_key_store fresh_store "/idx"
              empty_disk
              (snd (save_to_disk (fun _ => true) absolute_key_store "/idx" empty_disk)))
    as (loaded & Hload & Hdom & _).
  - reflexivity.
  - intros key Hkey. simpl in Hkey.
    rewrite dom_insert_L, dom_empty_L, (right_id_L ∅ (∪)) in Hkey.
    apply elem_of_singleton in Hkey as ->. reflexivity.
  - intros q _. apply lookup_empty.
  - vm_compute. reflexivity.
  - exists loaded. split; [exact Hload | exact Hdom].
Defined.

(** C4 as stated fails: a store whose key is [a.cpp], saved below /idx and
    loaded again into a fresh store.  Both calls report success, the file
    is /idx/.cpp.ast, and the key that comes back is [/.cpp]. *)
Lemma save_then_load_loses_relative_key :
  fst (save_to_disk (fun _ => true) relative_key_store "/idx" empty_disk) = true
  /\ ast_path "/idx" "a.cpp" = "/idx/.cpp.ast"
  /\ fst (load_from_disk fresh_store "/idx"
            (snd (save_to_disk (fun _ => true) relative_key_store "/idx" empty_disk)))
     = true
  /\ ("a.cpp" ∈ dom (tunits relative_key_store))
  /\ ("a.cpp" ∉ dom (tunits (snd (load_from_disk fresh_store "/idx"
                   (snd (save_to_disk (fun _ => true) relative_key_store "/idx" empty_disk))))))
  /\ ~ (dom (tunits (snd (load_from_disk fresh_store "/idx"
                (snd (save_to_disk (fun _ => true) relative_key_store "/idx" empty_disk)))))
        = dom (tunits relative_key_store)).
Proof.
  assert (Hin : "a.cpp" ∈ dom (tunits relative_key_store)).
  { apply elem_of_dom. eexists. vm_compute. reflexivity. }
  assert (Hout : "a.cpp" ∉ dom (tunits (snd (load_from_disk fresh_store "/idx"
            (snd (save_to_disk (fun _ => true) relative_key_store "/idx" empty_disk)))))).
  { apply not_elem_of_dom. vm_compute. reflexivity. }
  repeat split; try (vm_compute; reflexivity); try assumption.
  intros Heq. rewrite Heq in Hout. exact (Hout Hin).
Qed.

(** C10 at work: the store holds /src/a.cpp, the one [.ast] file below
    /idx cannot be read; the load reports failure and the store is empty. *)
Lemma load_failure_loses_store :
  get_translation_unit absolute_key_store "/src/a.cpp" = Some unit_a
  /\ load_from_disk absolute_key_store "/idx" broken_disk
     = (false, drop_all_translation_units absolute_key_store).
Proof. split; vm_compute; reflexivity. Qed.

(** * Further properties *)

(** ** More on traversal *)

(** A collecting walk that always descends gathers, below every child,
    that child and then all that lies below it. *)
Lemma collect_recurse_below (self : Cursor) (tu : TranslationUnit) :
  _tu self = Assigned tu ->
  forall n acc,
    exists cs,
      clang_visitChildren
        (fun child parent client_data =>
           child' ← attach self child parent; Ok (RECURSE, client_data ++ [child']))
        n acc = Ok (false, acc ++ cs)
      /\ map native cs = descendants n.
Proof.
  intros Htu n. induction n as [nd children IH] using Node_induction.
  intros acc. rewrite clang_visitChildren_unfold, descendants_unfold. simpl.
  generalize (mkNode nd children) as parent. intros parent. revert acc.
  induction children as [|child rest IHrest]; intros acc; simpl.
  - exists []. rewrite app_nil_r. split; reflexivity.
  - rewrite (attach_assigned self _ _ tu Htu). simpl.
    inversion IH as [|? ? Hchild Hrest]; subst.
    destruct (Hchild (acc ++ [delivered tu parent child])) as (below & Hrun & Hbelow).
    destruct (IHrest Hrest ((acc ++ [delivered tu parent child]) ++ below))
      as (others & Hgo & Hothers).
    unfold delivered in *. rewrite Hrun. simpl. rewrite Hgo.
    exists (mkCursor child (Assigned tu) (Assigned (Some (callback_cursor parent)))
              :: below ++ others). split.
    + rewrite <- !app_assoc. reflexivity.
    + simpl. rewrite map_app, Hbelow, Hothers. reflexivity.
Qed.

(** X1.  Asked to descend, [get_children] returns every node below the
    cursor, parents before children and siblings in order. *)
Theorem get_children_recurse_all_descendants (self : Cursor) (tu : TranslationUnit) :
  _tu self = Assigned tu ->
  exists children,
    get_children_patched self RECURSE = Ok children
    /\ map native children = descendants (native self).
Proof.
  intros Htu. unfold get_children_patched, traverse.
  destruct (collect_recurse_below self tu Htu (native self) []) as (cs & Hrun & Hcs).
  rewrite Hrun. simpl. exists cs. split; [reflexivity | exact Hcs].
Qed.


(** The witness: the unit of /src/t.cpp, whose root has the call below it
    and the member access below the call. *)
Lemma get_children_recurse_all_descendants_witness :
  exists children,
    get_children_patched (tu_cursor template_unit) RECURSE = Ok children
    /\ map native children = [call_node; member_node].
Proof.
  destruct (get_children_recurse_all_descendants (tu_cursor template_unit) template_unit)
    as (children & Hrun & Hnodes).
  - reflexivity.
  - exists children. split; [exact Hrun | exact Hnodes].
Defined.


(** ** More on classification *)

(** X3.  For a cursor of non-dependent type that refers to a declaration,
    the declaration alone decides the class: two such cursors with the same
    referenced declaration are classified alike, whatever their own kinds
    and overload sets; and unless the declaration is an overload set with
    a candidate, the class is the table's entry for the declaration's kind. *)
Theorem classification_follows_referenced (c c' : Cursor) (r : Referenced) :
  type_kind (data c) <> DEPENDENT ->
  type_kind (data c') <> DEPENDENT ->
  referenced (data c) = Some r ->
  referenced (data c') = Some r ->
  get_ast_node_id c = get_ast_node_id c'
  /\ ((ref_kind r <> OVERLOADED_DECL_REF \/ ref_overloaded_decls r = []) ->
        get_ast_node_id c = Ok (to_ast_node_id (ref_kind r)))
  /\ (forall k rest, ref_kind r = OVERLOADED_DECL_REF ->
        ref_overloaded_decls r = k :: rest ->
        get_ast_node_id c = Ok (to_ast_node_id k)).
Proof.
  intros Hc Hc' Hr Hr'. unfold get_ast_node_id.
  rewrite (bool_decide_eq_false_2 _ Hc), (bool_decide_eq_false_2 _ Hc'), Hr, Hr'.
  split; [reflexivity |]. split.
  - intros [Hk | Hnone].
    + rewrite (bool_decide_eq_false_2 _ Hk). reflexivity.
    + rewrite Hnone. destruct (bool_decide _); reflexivity.
  - intros k rest Hk Hcands. rewrite (bool_decide_eq_true_2 _ Hk), Hcands. reflexivity.
Qed.

(** X4.  A member access of dependent type that carries its parent is
    classified [Unsupported] exactly when none of its tokens qualifies;
    otherwise it is a [Method] or a [Field]. *)
Theorem dependent_member_access_classes (c : Cursor) (p : option Cursor) :
  type_kind (data c) = DEPENDENT ->
  kind (data c) = MEMBER_REF_EXPR ->
  ast_parent c = Assigned p ->
  ((forall token, token ∈ tokens (data c) -> qualifying c token = false)
     <-> get_ast_node_id c = Ok Unsupported)
  /\ ((exists token, token ∈ tokens (data c) /\ qualifying c token = true)
     <-> (get_ast_node_id c = Ok Method \/ get_ast_node_id c = Ok Field)).
Proof.
  intros Hdep Hkind Hpar.
  unfold get_ast_node_id, __extract_dependent_type_kind.
  rewrite (bool_decide_eq_true_2 _ Hdep), (bool_decide_eq_true_2 _ Hkind), Hpar. simpl.
  destruct (first_qualifying c) as [t|] eqn:Hfirst.
  - assert (Ht : t ∈ tokens (data c) /\ qualifying c t = true).
    { unfold first_qualifying in Hfirst. apply List.find_some in Hfirst.
      rewrite list_elem_of_In. exact Hfirst. }
    split; split.
    + intros Hno. destruct Ht as [Hin Hq]. rewrite (Hno t Hin) in Hq. discriminate.
    + destruct (parent_is_call p); simpl; discriminate.
    + intros _. destruct (parent_is_call p); simpl; auto.
    + intros _. exists t. exact Ht.
  - assert (Hno : forall token, token ∈ tokens (data c) -> qualifying c token = false).
    { intros token Hin. unfold first_qualifying in Hfirst.
      apply list_elem_of_In in Hin. exact (List.find_none _ _ Hfirst _ Hin). }
    rewrite Hkind. split; split.
    + intros _. destruct (parent_is_call p); reflexivity.
    + intros _. exact Hno.
    + intros (token & Hin & Hq). rewrite (Hno token Hin) in Hq. discriminate.
    + destruct (parent_is_call p); simpl; intros [H | H]; discriminate.
Qed.

Lemma dependent_member_access_classes_witness :
  get_ast_node_id member_in_call = Ok Method \/ get_ast_node_id member_in_call = Ok Field.
Proof.
  apply (dependent_member_access_classes member_in_call
           (Some (callback_cursor call_node))); try reflexivity.
  exists foo_token. split; [| reflexivity].
  apply list_elem_of_In. simpl. tauto.
Defined.

(** X5.  Every semantic class is the class of some cursor kind. *)
Theorem to_ast_node_id_onto (id : SemanticNodeId) : exists k, to_ast_node_id k = id.
Proof.
  destruct id;
    [ exists NAMESPACE | exists CLASS_DECL | exists STRUCT_DECL | exists ENUM_DECL
    | exists ENUM_CONSTANT_DECL | exists UNION_DECL | exists FIELD_DECL | exists VAR_DECL
    | exists FUNCTION_DECL | exists CXX_METHOD | exists PARM_DECL
    | exists TEMPLATE_TYPE_PARAMETER | exists TEMPLATE_NON_TYPE_PARAMETER
    | exists TEMPLATE_TEMPLATE_PARAMETER | exists MACRO_DEFINITION
    | exists MACRO_INSTANTIATION | exists TYPEDEF_DECL | exists NAMESPACE_ALIAS
    | exists USING_DIRECTIVE | exists USING_DECLARATION | exists CALL_EXPR ];
    reflexivity.
Qed.

(** X6.  Name, line and column are found for every cursor: unlike the
    class, they need no attached parent, and the assertions of the
    dependent resolvers are never reached with a non-dependent cursor. *)
Theorem name_line_column_never_raise (c : Cursor) :
  (exists name, get_ast_node_name c = Ok name)
  /\ (exists line, get_ast_node_line c = Ok line)
  /\ (exists column, get_ast_node_column c = Ok column).
Proof.
  unfold get_ast_node_name, get_ast_node_line, get_ast_node_column,
    __extract_dependent_type_spelling, __extract_dependent_type_location.
  destruct (bool_decide (type_kind (data c) = DEPENDENT)) eqn:Hdep; simpl.
  - destruct (bool_decide (kind (data c) = MEMBER_REF_EXPR));
      [destruct (first_qualifying c) |]; simpl; repeat split; eexists; reflexivity.
  - destruct (referenced (data c)); repeat split; eexists; reflexivity.
Qed.

(** X7.  For a dependent member access, name, line and column all come
    from one token: the first of its tokens that qualifies. *)
Theorem dependent_name_and_position_from_first_token (c : Cursor)
    (before after : list Token) (token : Token) :
  type_kind (data c) = DEPENDENT ->
  kind (data c) = MEMBER_REF_EXPR ->
  tokens (data c) = before ++ token :: after ->
  (forall t, t ∈ before -> qualifying c t = false) ->
  qualifying c token = true ->
  get_ast_node_name c = Ok (tok_spelling token)
  /\ get_ast_node_line c = Ok (loc_line (tok_location token))
  /\ get_ast_node_column c = Ok (loc_column (tok_location token)).
Proof.
  intros Hdep Hkind Htokens Hbefore Hq.
  assert (Hfirst : first_qualifying c = Some token).
  { unfold first_qualifying. rewrite Htokens. clear Htokens.
    induction before as [|t before IH]; simpl.
    - rewrite Hq. reflexivity.
    - rewrite (Hbefore t) by left. apply IH. intros t' Ht'. apply Hbefore. right. exact Ht'. }
  unfold get_ast_node_name, get_ast_node_line, get_ast_node_column,
    __extract_dependent_type_spelling, __extract_dependent_type_location.
  rewrite (bool_decide_eq_true_2 _ Hdep), (bool_decide_eq_true_2 _ Hkind), Hfirst.
  repeat split.
Qed.

Lemma dependent_name_and_position_from_first_token_witness :
  get_ast_node_name (from_location template_unit 3 5) = Ok "foo"
  /\ get_ast_node_line (from_location template_unit 3 5) = Ok 3%Z
  /\ get_ast_node_column (from_location template_unit 3 5) = Ok 5%Z.
Proof.
  apply (dependent_name_and_position_from_first_token (from_location template_unit 3 5)
           [ mkToken IDENTIFIER "x" (at_t 3 3 40) (mkRange (at_t 3 3 40) (at_t 3 4 41))
               (OTHER_KIND 101) (mkRange (at_t 3 3 40) (at_t 3 4 41));
             mkToken PUNCTUATION "." (at_t 3 4 41) (mkRange (at_t 3 4 41) (at_t 3 5 42))
               MEMBER_REF_EXPR member_extent ]
           [] foo_token); try reflexivity.
  intros t Ht. apply list_elem_of_In in Ht. simpl in Ht.
  destruct Ht as [<- | [<- | []]]; reflexivity.
Defined.

(** X8.  What a dependent cursor refers to plays no part in its class:
    kind, extent, tokens and parent decide. *)
Theorem dependent_classification_ignores_referenced (c c' : Cursor) :
  type_kind (data c) = DEPENDENT ->
  type_kind (data c') = DEPENDENT ->
  kind (data c) = kind (data c') ->
  extent (data c) = extent (data c') ->
  tokens (data c) = tokens (data c') ->
  ast_parent c = ast_parent c' ->
  get_ast_node_id c = get_ast_node_id c'.
Proof.
  intros Hdep Hdep' Hkind Hextent Htokens Hpar.
  unfold get_ast_node_id, __extract_dependent_type_kind, first_qualifying, qualifying.
  rewrite (bool_decide_eq_true_2 _ Hdep), (bool_decide_eq_true_2 _ Hdep').
  rewrite Hkind, Hextent, Htokens, Hpar. reflexivity.
Qed.

(** ** More on reference search *)


(** One visit, as a function of the node: the set grows by the node's
    location when the three tests pass, and is left alone otherwise. *)
Lemma visitor_step (filename : string) (ast_node parent : Cursor) (cd : client_data) :
  find_all_references_visitor filename ast_node parent cd
  = Ok (RECURSE,
        mkClientData (cd_cursor cd)
          (if located_in (data ast_node) filename
              && matches_target (cd_cursor cd) (data ast_node)
              && confirmed_by_token (data ast_node)
           then {[ ImmutableSourceLocation.init (location (data ast_node)) ]}
                  ∪ cd_references cd
           else cd_references cd)).
Proof.
  unfold find_all_references_visitor, matches_target, confirmed_by_token, confirm_by_token.
  destruct cd as [target refs]. simpl.
  destruct (located_in (data ast_node) filename); simpl; [| reflexivity].
  destruct (bool_decide (spelling_of _ = spelling_of target)); simpl; [| reflexivity].
  destruct (bool_decide (get_usr _ = get_usr target)); simpl; [| reflexivity].
  destruct (List.find _ _) as [token|]; [| reflexivity].
  destruct (bool_decide _); reflexivity.
Qed.

(** A walk whose visitor always descends is a fold over the nodes below
    the root. *)
Lemma walk_recurse_fold {D : Type} (v : Visitor (D := D)) (step : Node -> D -> D) :
  (forall child parent d,
     v (callback_cursor child) (callback_cursor parent) d = Ok (RECURSE, step child d)) ->
  forall n d,
    clang_visitChildren v n d = Ok (false, foldl (fun d child => step child d) d (descendants n)).
Proof.
  intros Hv n. induction n as [nd children IH] using Node_induction.
  intros d. rewrite clang_visitChildren_unfold, descendants_unfold. simpl.
  generalize (mkNode nd children) as parent. intros parent. revert d.
  induction children as [|child rest IHrest]; intros d; simpl; [reflexivity |].
  rewrite Hv. simpl. inversion IH as [|? ? Hchild Hrest]; subst.
  rewrite Hchild. simpl. rewrite foldl_app. apply IHrest. exact Hrest.
Qed.

Lemma for_each_pure {A S : Type} (f : S -> A -> S) (body : S -> A -> result S)
    (xs : list A) (s : S) :
  (forall s x, x ∈ xs -> body s x = Ok (f s x)) ->
  for_each body xs s = Ok (foldl f s xs).
Proof.
  revert s. induction xs as [|x rest IH]; intros s Hbody; simpl; [reflexivity |].
  rewrite Hbody by left. simpl. apply IH. intros s' y Hy. apply Hbody. right. exact Hy.
Qed.

Lemma gather_elem (key : string) (target : Referenced + CursorData)
    (refs : gset ISL) (node : Node) (loc : ISL) :
  loc ∈ gather key target refs node
  <-> loc ∈ refs
      \/ (loc = ImmutableSourceLocation.init (location (node_data node))
          /\ located_in (node_data node) key = true
          /\ matches_target target (node_data node) = true
          /\ confirmed_by_token (node_data node) = true).
Proof.
  unfold gather.
  destruct (located_in (node_data node) key), (matches_target target (node_data node)),
    (confirmed_by_token (node_data node)); simpl;
    rewrite ?elem_of_union, ?elem_of_singleton; intuition discriminate.
Qed.

Lemma gather_fold_elem (key : string) (target : Referenced + CursorData)
    (nodes : list Node) (refs : gset ISL) (loc : ISL) :
  loc ∈ foldl (gather key target) refs nodes
  <-> loc ∈ refs
      \/ exists node, node ∈ nodes
           /\ loc = ImmutableSourceLocation.init (location (node_data node))
           /\ located_in (node_data node) key = true
           /\ matches_target target (node_data node) = true
           /\ confirmed_by_token (node_data node) = true.
Proof.
  revert refs. induction nodes as [|node rest IH]; intros refs; simpl.
  - split; [auto | intros [H | (node & Hin & _)]; [exact H | inversion Hin]].
  - rewrite IH, gather_elem. split.
    + intros [[H | Hnode] | (n & Hn & Hrest)].
      * auto.
      * right. exists node. split; [left | exact Hnode].
      * right. exists n. split; [right; exact Hn | exact Hrest].
    + intros [H | (n & Hn & Hrest)]; [auto |].
      apply elem_of_cons in Hn as [-> | Hn]; [auto | right; exists n; auto].
Qed.

(** [find_all_references] on a loaded file, as a fold over the units and,
    per unit, over the nodes below its root. *)
Lemma find_all_references_fold (self : ClangParser) (filename : string) (line column : Z)
    (tu : TranslationUnit) :
  tunits self !! filename = Some tu ->
  find_all_references self filename line column
  = Ok (PySet (foldl (fun refs item =>
                        foldl (gather (fst item) (target_at tu line column)) refs
                              (descendants (tu_root (snd item))))
                     ∅ (map_to_list (tunits self)))).
Proof.
  intros Htu. unfold find_all_references. rewrite Htu.
  rewrite (for_each_pure
             (fun refs item =>
                foldl (gather (fst item) (target_at tu line column)) refs
                      (descendants (tu_root (snd item))))).
  - reflexivity.
  - intros refs [key unit] _. unfold traverse.
    rewrite (walk_recurse_fold _
               (fun node cd => mkClientData (cd_cursor cd)
                                 (gather key (cd_cursor cd) (cd_references cd) node))).
    + simpl. f_equal.
      generalize (descendants (tu_root unit)) as nodes. intros nodes. revert refs.
      induction nodes as [|node rest IH]; intros refs; simpl; [reflexivity |].
      apply IH.
    + intros child parent cd. unfold attach. simpl. rewrite visitor_step. reflexivity.
Qed.

Lemma references_fold_elem (target : Referenced + CursorData)
    (items : list (string * TranslationUnit)) (refs : gset ISL) (loc : ISL) :
  loc ∈ foldl (fun refs item =>
                 foldl (gather (fst item) target) refs (descendants (tu_root (snd item))))
              refs items
  <-> loc ∈ refs
      \/ exists key tu node, (key, tu) ∈ items
           /\ node ∈ descendants (tu_root tu)
           /\ loc = ImmutableSourceLocation.init (location (node_data node))
           /\ located_in (node_data node) key = true
           /\ matches_target target (node_data node) = true
           /\ confirmed_by_token (node_data node) = true.
Proof.
  revert refs. induction items as [|[key tu] rest IH]; intros refs; simpl.
  - split; [auto | intros [H | (k & t & n & Hin & _)]; [exact H | inversion Hin]].
  - rewrite IH, gather_fold_elem. split.
    + intros [[H | (node & Hn & Hrest)] | (k & t & n & Hin & Hrest)].
      * auto.
      * right. exists key, tu, node. split; [left | auto].
      * right. exists k, t, n. split; [right; exact Hin | exact Hrest].
    + intros [H | (k & t & n & Hin & Hrest)]; [auto |].
      apply elem_of_cons in Hin as [[= -> ->] | Hin].
      * left. right. exists n. exact Hrest.
      * right. exists k, t, n. auto.
Qed.

(** The set [find_all_references] returns on a loaded file holds exactly
    the occurrences of the target. *)
Lemma find_all_references_occurrences (self : ClangParser) (filename : string)
    (line column : Z) (tu : TranslationUnit) :
  tunits self !! filename = Some tu ->
  exists s, find_all_references self filename line column = Ok (PySet s)
    /\ forall loc, loc ∈ s <-> occurrence self (target_at tu line column) loc.
Proof.
  intros Htu. rewrite (find_all_references_fold self filename line column tu Htu).
  eexists. split; [reflexivity |]. intros loc.
  rewrite references_fold_elem. unfold occurrence. split.
  - intros [H | (key & unit & node & Hin & Hrest)].
    + apply not_elem_of_empty in H. destruct H.
    + exists key, unit, node. apply elem_of_map_to_list in Hin.
      split; [exact Hin | exact Hrest].
  - intros (key & unit & node & Hin & Hrest). right.
    exists key, unit, node. apply elem_of_map_to_list in Hin.
    split; [exact Hin | exact Hrest].
Qed.



(** X10.  The answer depends on the queried position only through the
    spelling and the USR of what is found there: two queries, in whatever
    loaded files, whose targets agree on both return the same set. *)
Theorem find_all_references_same_target_same_answer (self : ClangParser)
    (filename filename' : string) (line column line' column' : Z)
    (tu tu' : TranslationUnit) :
  tunits self !! filename = Some tu ->
  tunits self !! filename' = Some tu' ->
  spelling_of (target_at tu line column) = spelling_of (target_at tu' line' column') ->
  get_usr (target_at tu line column) = get_usr (target_at tu' line' column') ->
  find_all_references self filename line column
  = find_all_references self filename' line' column'.
Proof.
  intros Htu Htu' Hsp Husr.
  destruct (find_all_references_occurrences self filename line column tu Htu)
    as (s & -> & Hs).
  destruct (find_all_references_occurrences self filename' line' column' tu' Htu')
    as (s' & -> & Hs').
  f_equal. f_equal. apply set_eq. intros loc. rewrite Hs, Hs'.
  unfold occurrence, matches_target. rewrite Hsp, Husr. reflexivity.
Qed.

Lemma find_all_references_same_target_same_answer_witness :
  find_all_references two_units "/src/a.cpp" 1 6
  = find_all_references two_units "/src/b.cpp" 7 5.
Proof.
  apply (find_all_references_same_target_same_answer two_units
           "/src/a.cpp" "/src/b.cpp" 1 6 7 5 unit_a unit_b); reflexivity.
Defined.

(** X11.  Every location the search reports has a file, so it can be
    hashed: [__hash__] gives a number for it. *)
Theorem reported_locations_hash (hash_str : string -> Z) (hash_int : Z -> Z)
    (self : ClangParser) (filename : string) (line column : Z) (r : PyCollection) (loc : ISL) :
  find_all_references self filename line column = Ok r ->
  loc ∈ members r ->
  exists h, ImmutableSourceLocation.hash hash_str hash_int loc = Ok h.
Proof.
  intros Hrun Hloc. unfold find_all_references in Hrun.
  destruct (tunits self !! filename) as [tu|] eqn:Htu.
  2:{ injection Hrun as <-. inversion Hloc. }
  fold (find_all_references self filename line column) in Hrun.
  assert (Hfold := find_all_references_occurrences self filename line column tu Htu).
  destruct Hfold as (s & Hs & Hocc).
  unfold find_all_references in Hs. rewrite Htu in Hs. rewrite Hs in Hrun.
  injection Hrun as <-. simpl in Hloc. apply elem_of_elements, Hocc in Hloc.
  destruct Hloc as (key & unit & node & _ & _ & -> & Hfile & _).
  apply located_in_spec in Hfile.
  unfold ImmutableSourceLocation.hash. simpl. rewrite Hfile. simpl. eauto.
Qed.

(** X12.  Loading one more unit never loses a reference: with the same
    target, what was reported before is reported after. *)
Theorem more_units_more_references (self : ClangParser) (key : string)
    (unit tu : TranslationUnit) (filename : string) (line column : Z) :
  tunits self !! key = None ->
  tunits self !! filename = Some tu ->
  exists s s',
    find_all_references self filename line column = Ok (PySet s)
    /\ find_all_references (set_tunits self (<[key := unit]> (tunits self)))
         filename line column = Ok (PySet s')
    /\ s ⊆ s'.
Proof.
  intros Hfresh Htu.
  destruct (find_all_references_occurrences self filename line column tu Htu)
    as (s & Hs & Hocc).
  assert (Htu' : tunits (set_tunits self (<[key := unit]> (tunits self))) !! filename = Some tu).
  { simpl. rewrite lookup_insert_ne; [exact Htu |]. intros ->. congruence. }
  destruct (find_all_references_occurrences _ filename line column tu Htu')
    as (s' & Hs' & Hocc').
  exists s, s'. split; [exact Hs |]. split; [exact Hs' |].
  intros loc Hloc. apply Hocc'. apply Hocc in Hloc.
  destruct Hloc as (k & t & node & Hk & Hrest).
  exists k, t, node. split; [| exact Hrest].
  simpl. rewrite lookup_insert_ne; [exact Hk |]. intros ->. congruence.
Qed.

(** ** More on the store *)

Lemma set_tunits_same (self : ClangParser) : set_tunits self (tunits self) = self.
Proof. destruct self; reflexivity. Qed.

(** X13.  After [drop_translation_unit] the key is absent and every other
    key gives what it gave; dropping a key that is not in the store
    changes nothing and raises nothing. *)
Theorem drop_translation_unit_removes_only_that_key (self : ClangParser) (filename : string) :
  get_translation_unit (drop_translation_unit self filename) filename = None
  /\ (forall other, other <> filename ->
        get_translation_unit (drop_translation_unit self filename) other
        = get_translation_unit self other)
  /\ (get_translation_unit self filename = None -> drop_translation_unit self filename = self).
Proof.
  unfold get_translation_unit, drop_translation_unit. simpl. split; [| split].
  - apply lookup_delete_eq.
  - intros other Hne. apply lookup_delete_ne. congruence.
  - intros Hnone. rewrite delete_id by exact Hnone. apply set_tunits_same.
Qed.

Section StoreComposition.
Variable index_parse : string -> list string -> result TranslationUnit.

(** X14.  Parsing a key and then dropping it leaves the store as it was
    without that key, whether the parse succeeded or not. *)
Theorem run_then_drop (self : ClangParser) (contents_filename original_filename : string)
    (compiler_args : list string) (project_root_directory : string) :
  exists parsed,
    run index_parse self contents_filename original_filename compiler_args
      project_root_directory = Ok parsed
    /\ drop_translation_unit parsed original_filename
       = drop_translation_unit self original_filename
    /\ get_translation_unit (drop_translation_unit parsed original_filename)
         original_filename = None.
Proof.
  unfold run, try_except, drop_translation_unit, get_translation_unit, set_tunits.
  destruct (index_parse _ _) as [tu|e]; simpl; eexists; (split; [reflexivity |]); simpl.
  - rewrite delete_insert_eq. split; [reflexivity | apply lookup_delete_eq].
  - split; [reflexivity | apply lookup_delete_eq].
Qed.

(** X15.  A second parse of a key replaces what the first one stored: the
    store after two successful parses of one key is the store after the
    second alone. *)
Theorem run_twice_keeps_last (self first second : ClangParser)
    (contents contents' key : string) (args args' : list string) (dir dir' : string)
    (tu' : TranslationUnit) :
  run index_parse self contents key args dir = Ok first ->
  index_parse contents' (default_args self ++ args' ++ ["-working-directory=" +:+ dir'])
    = Ok tu' ->
  run index_parse first contents' key args' dir' = Ok second ->
  run index_parse self contents' key args' dir' = Ok second.
Proof.
  unfold run, try_except. intros Hfirst Hparse Hsecond.
  assert (Hargs : default_args first = default_args self).
  { destruct (index_parse contents _) as [tu|e]; simpl in Hfirst;
      injection Hfirst as <-; reflexivity. }
  rewrite Hargs, Hparse in Hsecond. rewrite Hparse. simpl in *.
  injection Hsecond as <-. f_equal. unfold set_tunits. rewrite Hargs. f_equal.
  destruct (index_parse contents _) as [tu|e]; simpl in Hfirst; injection Hfirst as <-; simpl.
  - rewrite insert_insert_eq. reflexivity.
  - reflexivity.
Qed.

End StoreComposition.

(** X16.  After [drop_all_translation_units] no key has a unit, every
    search returns the empty list, and a save writes nothing and reports
    success. *)
Theorem drop_all_leaves_nothing (self : ClangParser) (may_write : string -> bool)
    (filename root_dir : string) (line column : Z) (disk : Disk) :
  get_translation_unit (drop_all_translation_units self) filename = None
  /\ map_source_location_to_cursor (drop_all_translation_units self) filename line column
     = inl ""
  /\ find_all_references (drop_all_translation_units self) filename line column
     = Ok (PyList [])
  /\ save_to_disk may_write (drop_all_translation_units self) root_dir disk = (true, disk).
Proof.
  unfold get_translation_unit, map_source_location_to_cursor, find_all_references,
    save_to_disk, drop_all_translation_units. simpl.
  rewrite lookup_empty, map_to_list_empty. repeat split.
Qed.

(** ** More on saving and loading *)

Section SaveFrame.
Variable may_write : string -> bool.
Variable root_dir : string.

(** One iteration of the save loop leaves every file alone but the one it
    writes, and removes none, whatever its outcome. *)
Lemma save_body_frame (key : string) (tu : TranslationUnit) (disk disk' : Disk)
    (r : result unit) :
  save_body may_write root_dir (key, tu) disk = (r, disk') ->
  (forall q, q <> ast_path root_dir key -> files disk' !! q = files disk !! q)
  /\ (forall q, is_Some (files disk !! q) -> is_Some (files disk' !! q)).
Proof.
  unfold save_body, os_makedirs, tunit_save. intros Hrun.
  assert (Hcases : files disk' = files disk
                   \/ files disk' = <[ast_path root_dir key := SerializedAst tu]> (files disk)).
  { destruct (negb (os_path_exists _ disk)).
    - destruct (may_write (os_path_dirname _)); simpl in Hrun.
      + destruct (may_write (ast_path root_dir key)); injection Hrun as _ <-; auto.
      + injection Hrun as _ <-. auto.
    - destruct (may_write (ast_path root_dir key)); injection Hrun as _ <-; auto. }
  destruct Hcases as [-> | ->]; split; auto.
  - intros q Hq. apply lookup_insert_ne. congruence.
  - intros q Hq. destruct (decide (q = ast_path root_dir key)) as [-> | Hne].
    + rewrite lookup_insert_eq. eauto.
    + rewrite lookup_insert_ne by congruence. exact Hq.
Qed.

Lemma save_loop_frame (items : list (string * TranslationUnit)) (disk disk' : Disk)
    (r : result unit) :
  for_each_st (save_body may_write root_dir) items disk = (r, disk') ->
  (forall q, (forall key tu, (key, tu) ∈ items -> q <> ast_path root_dir key) ->
     files disk' !! q = files disk !! q)
  /\ (forall q, is_Some (files disk !! q) -> is_Some (files disk' !! q)).
Proof.
  intros Hrun. split.
  - intros q Hq.
    apply (for_each_st_invariant (fun d => files d !! q = files disk !! q)
             (save_body may_write root_dir) items) with (s := disk) (r := r);
      [| reflexivity | exact Hrun].
    intros [key tu] d r' d' Hin Hd Hstep.
    destruct (save_body_frame key tu d d' r' Hstep) as [Hframe _].
    rewrite (Hframe q (Hq key tu Hin)). exact Hd.
  - intros q Hq.
    apply (for_each_st_invariant (fun d => is_Some (files d !! q))
             (save_body may_write root_dir) items) with (s := disk) (r := r);
      [| exact Hq | exact Hrun].
    intros [key tu] d r' d' _ Hd Hstep.
    destruct (save_body_frame key tu d d' r' Hstep) as [_ Hkeep]. exact (Hkeep q Hd).
Qed.

(** With distinct target paths, a save that went through leaves at each
    path the unit of its key. *)
Lemma save_loop_content (items : list (string * TranslationUnit)) (disk disk' : Disk) :
  NoDup (map (fun item => ast_path root_dir (fst item)) items) ->
  for_each_st (save_body may_write root_dir) items disk = (Ok tt, disk') ->
  forall key tu, (key, tu) ∈ items ->
    files disk' !! ast_path root_dir key = Some (SerializedAst tu).
Proof.
  revert disk. induction items as [|[k0 tu0] rest IH]; intros disk Hnodup Hrun key tu Hin;
    cbn [for_each_st] in Hrun.
  - inversion Hin.
  - destruct (save_body may_write root_dir (k0, tu0) disk) as [[[]|e] disk1] eqn:Hstep;
      [| discriminate].
    simpl in Hnodup. apply NoDup_cons in Hnodup as [Hfresh Hnodup].
    apply elem_of_cons in Hin as [[= -> ->] | Hin].
    + destruct (save_loop_frame rest disk1 disk' (Ok tt) Hrun) as [Hframe _].
      rewrite Hframe.
      * rewrite (save_body_files may_write root_dir k0 tu0 disk disk1 Hstep).
        apply lookup_insert_eq.
      * intros k t Hk Heq. apply Hfresh. rewrite Heq.
        apply list_elem_of_fmap. exists (k, t). split; [reflexivity | exact Hk].
    + exact (IH disk1 Hnodup Hrun key tu Hin).
Qed.

End SaveFrame.

(** X17.  Whatever its outcome, [save_to_disk] removes no file and leaves
    every file alone that is not at the path of one of the store's keys. *)
Theorem save_to_disk_touches_only_its_paths (may_write : string -> bool)
    (self : ClangParser) (root_dir : string) (disk : Disk) :
  (forall q, (forall key, key ∈ dom (tunits self) -> q <> ast_path root_dir key) ->
     files (snd (save_to_disk may_write self root_dir disk)) !! q = files disk !! q)
  /\ (forall q, is_Some (files disk !! q) ->
        is_Some (files (snd (save_to_disk may_write self root_dir disk)) !! q)).
Proof.
  unfold save_to_disk.
  destruct (for_each_st (save_body may_write root_dir) (map_to_list (tunits self)) disk)
    as [r disk'] eqn:Hrun.
  destruct (save_loop_frame may_write root_dir _ _ _ _ Hrun) as [Hframe Hkeep].
  assert (Hsnd : snd (match r with Ok _ => (true, disk') | Raise _ => (false, disk') end)
                 = disk') by (destruct r; reflexivity).
  rewrite Hsnd. split; [| exact Hkeep].
  intros q Hq. apply Hframe. intros key tu Hin. apply Hq.
  apply elem_of_dom. exists tu. apply elem_of_map_to_list. exact Hin.
Qed.


Lemma append_inj_r (a b c : string) : a +:+ c = b +:+ c -> a = b.
Proof.
  intros Heq.
  assert (Hlen : String.length a = String.length b).
  { apply (f_equal String.length) in Heq. rewrite !append_length in Heq. lia. }
  rewrite <- (substring_head a c), <- (substring_head b c), Heq, Hlen. reflexivity.
Qed.

Lemma ast_path_inj (root_dir key key' : string) :
  plain_root root_dir = true -> absolute_key key = true -> absolute_key key' = true ->
  ast_path root_dir key = ast_path root_dir key' -> key = key'.
Proof.
  intros Hroot Hkey Hkey' Heq.
  rewrite (ast_path_shape root_dir key Hroot Hkey),
    (ast_path_shape root_dir key' Hroot Hkey') in Heq.
  apply String.app_inj in Heq. exact (append_inj_r key key' ".ast" Heq).
Qed.

(** Loading what a save has written below a root that held nothing: the
    loop goes through, finds the saved keys, and holds only what it read. *)
Lemma save_then_load_loop (may_write : string -> bool) (self : ClangParser)
    (root_dir : string) (disk disk' : Disk) :
  plain_root root_dir = true ->
  (forall key, key ∈ dom (tunits self) -> absolute_key key = true) ->
  (forall q, under root_dir q = true -> files disk !! q = None) ->
  for_each_st (save_body may_write root_dir) (map_to_list (tunits self)) disk = (Ok tt, disk') ->
  exists m,
    for_each_st (load_body root_dir disk') (os_walk root_dir disk') ∅ = (Ok tt, m)
    /\ dom m = dom (tunits self)
    /\ forall key tu, m !! key = Some tu ->
         files disk' !! ast_path root_dir key = Some (SerializedAst tu).
Proof.
  intros Hroot Hkeys Hfresh Hloop.
  destruct (save_loop_files may_write root_dir _ _ _ Hloop) as [Hall Honly].
  assert (Hitem : forall key tu, (key, tu) ∈ map_to_list (tunits self) ->
            key ∈ dom (tunits self)).
  { intros key tu Hin. apply elem_of_dom. exists tu. apply elem_of_map_to_list. exact Hin. }
  assert (Hwritten : forall q, is_Some (files disk' !! q) -> under root_dir q = true ->
            exists key tu', key ∈ dom (tunits self)
              /\ q = root_dir +:+ key +:+ ".ast"
              /\ files disk' !! q = Some (SerializedAst tu')).
  { intros q [c Hq] Hunder. destruct (Honly q c Hq) as [Hold | (k & tu & tu' & Hin & -> & ->)].
    - rewrite (Hfresh q Hunder) in Hold. discriminate.
    - exists k, tu'.
      rewrite <- (ast_path_shape root_dir k Hroot (Hkeys k (Hitem k tu Hin))).
      split; [exact (Hitem k tu Hin) | split; [reflexivity | exact Hq]]. }
  assert (Hentry : forall entry, entry ∈ os_walk root_dir disk' ->
            exists key tu, key ∈ dom (tunits self)
              /\ entry_key root_dir entry = key
              /\ forall m, load_body root_dir disk' entry m = (Ok tt, <[key := tu]> m)).
  { intros entry Hin.
    destruct (os_walk_entry _ _ _ Hin) as (q & dirpath & file & -> & Hq & Hunder & Hsplit).
    destruct (Hwritten q Hq Hunder) as (key & tu' & Hkey & -> & Hfile).
    destruct (load_body_saved root_dir key dirpath file disk' tu'
                (Hkeys key Hkey) Hfile Hsplit) as [Hk Hload].
    exists key, tu'. auto. }
  destruct (load_loop_all root_dir disk' (os_walk root_dir disk'))
    with (m := (∅ : gmap string TranslationUnit)) as (m & Hrun & Hdom).
  { intros entry Hin. destruct (Hentry entry Hin) as (key & tu & _ & -> & Hload).
    exists tu. exact Hload. }
  exists m. split; [exact Hrun |]. split.
  - rewrite Hdom, dom_empty_L, (left_id_L ∅ (∪)).
    apply set_eq. intros key. rewrite elem_of_list_to_set, list_elem_of_fmap. split.
    + intros (entry & -> & Hin).
      destruct (Hentry entry Hin) as (key & tu & Hkey & -> & _). exact Hkey.
    + intros Hkey. apply elem_of_dom in Hkey as [tu Htu].
      apply elem_of_map_to_list in Htu.
      destruct (Hall key tu Htu) as (tu' & Hfile).
      pose proof (Hkeys key (Hitem key tu Htu)) as Habs.
      rewrite (ast_path_shape root_dir key Hroot Habs) in Hfile.
      destruct (absolute_key_shape key Habs) as (r & h & base & _ & _ & _ & Hk & _).
      pose proof (rsplit_sep_ast root_dir key h base Hk) as Hsplit.
      destruct (load_body_saved root_dir key _ _ disk' tu' Habs Hfile Hsplit) as [Hek _].
      exists (root_dir +:+ h, [base +:+ ".ast"]). split; [symmetry; exact Hek |].
      unfold os_walk. apply list_elem_of_omap.
      exists (root_dir +:+ key +:+ ".ast"). split.
      * apply list_elem_of_fmap. exists (root_dir +:+ key +:+ ".ast", SerializedAst tu').
        split; [reflexivity |]. apply elem_of_map_to_list. exact Hfile.
      * rewrite (under_ast root_dir key Hroot Habs), Hsplit. reflexivity.
  - intros key tu Hm.
    assert (Hread : read_from_disk root_dir disk' m).
    { apply (for_each_st_invariant (read_from_disk root_dir disk')
               (load_body root_dir disk') (os_walk root_dir disk'))
        with (s := ∅) (r := Ok tt); [| | exact Hrun].
      - intros entry s r' s' Hin Hs Hbody.
        exact (load_body_keeps_read_from_disk _ _ _ _ _ _ Hin Hs Hbody).
      - intros k t Hk. rewrite lookup_empty in Hk. discriminate. }
    destruct (Hread key tu Hm) as (path & Hunder & Hfile & ->).
    destruct (Hwritten path (mk_is_Some _ _ Hfile) Hunder) as (k & tu' & Hk & -> & _).
    rewrite original_filename_of_ast.
    rewrite (ast_path_shape root_dir k Hroot (Hkeys k Hk)). exact Hfile.
Qed.

(** X19.  Under the conditions the layout is made for, saving and loading
    restores the store itself: every key comes back with the unit that
    was saved for it, and nothing else does. *)
Theorem save_then_load_same_units (may_write : string -> bool)
    (self other : ClangParser) (root_dir : string) (disk disk' : Disk) :
  plain_root root_dir = true ->
  (forall key, key ∈ dom (tunits self) -> absolute_key key = true) ->
  (forall q, under root_dir q = true -> files disk !! q = None) ->
  save_to_disk may_write self root_dir disk = (true, disk') ->
  exists loaded,
    load_from_disk other root_dir disk' = (true, loaded)
    /\ tunits loaded = tunits self.
Proof.
  intros Hroot Hkeys Hfresh Hsave. unfold save_to_disk in Hsave.
  destruct (for_each_st (save_body may_write root_dir) (map_to_list (tunits self)) disk)
    as [[[]|e] d] eqn:Hloop; [| discriminate].
  injection Hsave as ->.
  destruct (save_then_load_loop may_write self root_dir disk disk' Hroot Hkeys Hfresh Hloop)
    as (m & Hrun & Hdom & Hfiles).
  exists (set_tunits other m). unfold load_from_disk. rewrite Hrun.
  split; [reflexivity |]. simpl.
  assert (Hnodup : NoDup (map (fun item => ast_path root_dir (fst item))
                              (map_to_list (tunits self)))).
  { apply NoDup_fmap_2_strong; [| apply NoDup_map_to_list].
    intros [k tu] [k' tu'] Hin Hin' Heq. simpl in Heq.
    pose proof Hin as Hk. pose proof Hin' as Hk'.
    apply elem_of_map_to_list in Hk, Hk'.
    assert (k = k') as <-.
    { apply (ast_path_inj root_dir k k' Hroot); [| | exact Heq];
        apply Hkeys, elem_of_dom; eauto. }
    congruence. }
  apply map_eq. intros key.
  destruct (tunits self !! key) as [tu|] eqn:Hself.
  - assert (Hin : key ∈ dom m) by (rewrite Hdom; apply elem_of_dom; eauto).
    apply elem_of_dom in Hin as [tu' Htu'].
    pose proof (Hfiles key tu' Htu') as Hfile.
    apply elem_of_map_to_list in Hself.
    rewrite (save_loop_content may_write root_dir _ _ _ Hnodup Hloop key tu Hself) in Hfile.
    injection Hfile as ->. exact Htu'.
  - apply not_elem_of_dom. rewrite Hdom. apply not_elem_of_dom. exact Hself.
Qed.

Lemma save_then_load_same_units_witness :
  exists loaded,
    load_from_disk fresh_store "/idx"
      (snd (save_to_disk (fun _ => true) absolute_key_store "/idx" empty_disk))
    = (true, loaded)
    /\ tunits loaded = tunits absolute_key_store.
Proof.
  apply (save_then_load_same_units (fun _ => true) absolute_key_store fresh_store "/idx"
           empty_disk).
  - reflexivity.
  - intros key Hkey. simpl in Hkey.
    rewrite dom_insert_L, dom_empty_L, (right_id_L ∅ (∪)) in Hkey.
    apply elem_of_singleton in Hkey as ->. reflexivity.
  - intros q _. apply lookup_empty.
  - vm_compute. reflexivity.
Defined.




Lemma load_loop_success (root_dir : string) (disk : Disk)
    (entries : list (string * list string)) (m m' : gmap string TranslationUnit) :
  (forall entry, entry ∈ entries -> exists dirpath file, entry = (dirpath, [file])) ->
  for_each_st (load_body root_dir disk) entries m = (Ok tt, m') ->
  dom m ⊆ dom m'
  /\ forall dirpath file, (dirpath, [file]) ∈ entries ->
       snd (os_path_splitext file) = ".ast" ->
       exists tu, index_read (os_path_join dirpath file) disk = Ok tu
         /\ original_filename_of root_dir (os_path_join dirpath file) ∈ dom m'.
Proof.
  revert m. induction entries as [|entry rest IH]; intros m Hshape Hrun;
    cbn [for_each_st] in Hrun.
  - injection Hrun as <-. split; [reflexivity |]. intros d f Hin. inversion Hin.
  - destruct (load_body root_dir disk entry m) as [[[]|e] m1] eqn:Hstep; [| discriminate].
    destruct (IH m1 (fun e He => Hshape e (list_elem_of_further _ _ _ He)) Hrun)
      as [Hsub Hrest].
    destruct (Hshape entry) as (dirpath & file & ->); [left |].
    unfold load_body in Hstep. simpl in Hstep. unfold load_file in Hstep.
    destruct (os_path_splitext file) as [name extension] eqn:Hext.
    destruct (bool_decide (extension = ".ast")) eqn:Hast.
    + destruct (index_read (os_path_join dirpath file) disk) as [tu|e] eqn:Hread;
        [| discriminate].
      injection Hstep as <-. split.
      * etrans; [| exact Hsub]. rewrite dom_insert_L. set_solver.
      * intros d f Hin Hf. apply elem_of_cons in Hin as [[= -> ->] | Hin].
        -- exists tu. split; [exact Hread |]. apply Hsub.
           rewrite dom_insert_L. set_solver.
        -- exact (Hrest d f Hin Hf).
    + injection Hstep as <-. split; [exact Hsub |].
      intros d f Hin Hf. apply elem_of_cons in Hin as [[= -> ->] | Hin].
      * rewrite Hext in Hf. simpl in Hf. apply bool_decide_eq_false in Hast. contradiction.
      * exact (Hrest d f Hin Hf).
Qed.

(** X21.  When [load_from_disk] reports success, every file below the root
    with the extension [.ast] held a serialized unit, and the key cut out
    of its path is in the store. *)
Theorem load_from_disk_success_covers_every_ast_file (self : ClangParser)
    (root_dir : string) (disk : Disk) (q dirpath file : string) :
  fst (load_from_disk self root_dir disk) = true ->
  is_Some (files disk !! q) ->
  under root_dir q = true ->
  rsplit_sep q = Some (dirpath, file) ->
  snd (os_path_splitext file) = ".ast" ->
  (exists tu, files disk !! q = Some (SerializedAst tu))
  /\ original_filename_of root_dir q
       ∈ dom (tunits (snd (load_from_disk self root_dir disk))).
Proof.
  unfold load_from_disk. intros Hok [c Hq] Hunder Hsplit Hext.
  destruct (for_each_st (load_body root_dir disk) (os_walk root_dir disk) ∅)
    as [[[]|e] m] eqn:Hrun; [| discriminate].
  simpl.
  destruct (load_loop_success root_dir disk _ _ _
              (fun entry Hin =>
                 match os_walk_entry _ _ _ Hin with
                 | ex_intro _ q' (ex_intro _ d (ex_intro _ f (conj Heq _))) =>
                     ex_intro _ d (ex_intro _ f Heq)
                 end) Hrun) as [_ Hall].
  destruct (Hall dirpath file) as (tu & Hread & Hkey); [| exact Hext |].
  - unfold os_walk. apply list_elem_of_omap. exists q. split.
    + apply list_elem_of_fmap. exists (q, c). split; [reflexivity |].
      apply elem_of_map_to_list. exact Hq.
    + rewrite Hunder, Hsplit. reflexivity.
  - rewrite (join_rsplit_sep q dirpath file Hsplit) in Hread, Hkey.
    split; [| exact Hkey]. exists tu. apply index_read_ok. exact Hread.
Qed.

(** X22.  What comes back for a key is a separator followed by the key
    without its first character: an absolute key comes back as it was, a
    relative one with its first character replaced. *)
Theorem key_comes_back_with_leading_separator (root_dir : string) (c : ascii) (r : string) :
  plain_root root_dir = true ->
  clean r = true ->
  ast_path root_dir (String c r) = root_dir +:+ "/" +:+ r +:+ ".ast"
  /\ original_filename_of root_dir (ast_path root_dir (String c r)) = String sep r.
Proof.
  intros Hroot Hclean.
  assert (Hkey : absolute_key (String sep r) = true).
  { simpl. rewrite Hclean. reflexivity. }
  assert (Hpath : ast_path root_dir (String c r) = ast_path root_dir (String sep r)).
  { unfold ast_path. rewrite !slice_tail. reflexivity. }
  rewrite Hpath, (ast_path_shape root_dir _ Hroot Hkey). split; [reflexivity |].
  apply original_filename_of_ast.
Qed.

Lemma key_comes_back_with_leading_separator_witness :
  original_filename_of "/idx" (ast_path "/idx" "a.cpp") = "/.cpp".
Proof.
  apply (key_comes_back_with_leading_separator "/idx" "a"%char ".cpp"); reflexivity.
Defined.

(** ** System include paths *)


Lemma replace_space_no_space (s : string) : has_char space (replace_space s) = false.
Proof.
  induction s as [|c r IH]; simpl; [reflexivity |].
  destruct (bool_decide (c = space)) eqn:Hc; simpl; [exact IH |].
  rewrite Hc, IH. reflexivity.
Qed.

Lemma split_escaped_newline_cons (s : string) :
  exists x xs, split_escaped_newline s = x :: xs.
Proof.
  destruct s as [|c r]; simpl; [eauto |].
  destruct r as [|n r'].
  - simpl. eauto.
  - destruct (bool_decide (c = backslash) && bool_decide (n = "n"%char)); [eauto |].
    destruct (split_escaped_newline (String n r')); eauto.
Qed.

Lemma split_escaped_newline_step (c : ascii) (r : string) :
  split_escaped_newline (String c r)
  = match r with
    | String n r' =>
        if bool_decide (c = backslash) && bool_decide (n = "n"%char)
        then EmptyString :: split_escaped_newline r'
        else match split_escaped_newline r with
             | x :: xs => String c x :: xs
             | [] => [String c EmptyString]
             end
    | EmptyString => [String c EmptyString]
    end.
Proof. destruct r; reflexivity. Qed.

(** Induction over a string two characters at a time. *)
Lemma string_pair_ind (P : string -> Prop) :
  P EmptyString ->
  (forall c, P (String c EmptyString)) ->
  (forall c n r, P r -> P (String n r) -> P (String c (String n r))) ->
  forall s, P s.
Proof.
  intros H0 H1 H2 s.
  assert (Hboth : P s /\ forall c, P (String c s)).
  { induction s as [|n r [IHr IHnr]]; [split; auto |].
    split; [apply IHnr |]. intros c. apply H2; [exact IHr | apply IHnr]. }
  exact (proj1 Hboth).
Qed.

Lemma split_keeps_no_space (s : string) :
  has_char space s = false ->
  Forall (fun part => has_char space part = false) (split_escaped_newline s).
Proof.
  induction s as [|c|c n r IHr IHnr] using string_pair_ind; intros Hs.
  - repeat constructor.
  - repeat constructor. exact Hs.
  - rewrite split_escaped_newline_step.
    simpl in Hs. apply orb_false_iff in Hs as [Hc Hs]. apply orb_false_iff in Hs as [Hn Hr].
    destruct (bool_decide (c = backslash) && bool_decide (n = "n"%char)).
    + constructor; [reflexivity | exact (IHr Hr)].
    + assert (Hnr : has_char space (String n r) = false) by (simpl; rewrite Hn, Hr; reflexivity).
      specialize (IHnr Hnr).
      destruct (split_escaped_newline (String n r)) as [|x xs].
      * repeat constructor. simpl. rewrite Hc. reflexivity.
      * inversion IHnr as [|? ? Hx Hxs]; subst. constructor; [| exact Hxs].
        simpl. rewrite Hc, Hx. reflexivity.
Qed.

Lemma concat_cons_char (sep_ : string) (c : ascii) (x : string) (xs : list string) :
  String.concat sep_ (String c x :: xs) = String c (String.concat sep_ (x :: xs)).
Proof. destruct xs; reflexivity. Qed.

Lemma concat_cons_more (sep_ a x : string) (xs : list string) :
  String.concat sep_ (a :: x :: xs) = a +:+ sep_ +:+ String.concat sep_ (x :: xs).
Proof. reflexivity. Qed.

Lemma split_then_join (s : string) :
  String.concat (String backslash (String "n" EmptyString)) (split_escaped_newline s) = s.
Proof.
  induction s as [|c|c n r IHr IHnr] using string_pair_ind; [reflexivity | reflexivity |].
  rewrite split_escaped_newline_step.
  destruct (bool_decide (c = backslash) && bool_decide (n = "n"%char)) eqn:Hcn.
  - apply andb_true_iff in Hcn as [Hc Hn].
    apply bool_decide_eq_true in Hc, Hn. subst c n.
    destruct (split_escaped_newline_cons r) as (x & xs & Hsplit).
    rewrite Hsplit in *. rewrite concat_cons_more, IHr. reflexivity.
  - destruct (split_escaped_newline_cons (String n r)) as (x & xs & Hsplit).
    rewrite Hsplit in *. rewrite concat_cons_char, IHnr. reflexivity.
Qed.

(** X23.  The list of include flags is never empty and none of its
    members contains a space, every space of the compiler's text having
    become [-I]; glued together again with the escaped line break, the
    members give back the text between the two markers, spaces replaced. *)
Theorem get_system_includes_flags (output : string) :
  get_system_includes output <> []
  /\ Forall (fun flag => has_char space flag = false) (get_system_includes output)
  /\ String.concat (String backslash (String "n" EmptyString)) (get_system_includes output)
     = replace_space
         (py_slice output
            (py_find "#include <...> search starts here:" output + 34)
            (py_find "End of search list." output)).
Proof.
  unfold get_system_includes. split; [| split].
  - destruct (split_escaped_newline_cons
                (replace_space
                   (py_slice output
                      (py_find "#include <...> search starts here:" output
                       + Z.of_nat (String.length "#include <...> search starts here:"))
                      (py_find "End of search list." output)))) as (x & xs & ->).
    discriminate.
  - apply split_keeps_no_space, replace_space_no_space.
  - apply split_then_join.
Qed.

(** A new parser holds no unit: every lookup is absent and every
    search returns the empty list; its default arguments start with the
    three language flags, and none of the others contains a space. *)
Lemma new_parser_is_empty (output filename : string) (line column : Z) :
  get_translation_unit (ClangParser_init output) filename = None
  /\ find_all_references (ClangParser_init output) filename line column = Ok (PyList [])
  /\ take 3 (default_args (ClangParser_init output)) = ["-x"; "c++"; "-std=c++14"]
  /\ Forall (fun flag => has_char space flag = false)
            (drop 3 (default_args (ClangParser_init output))).
Proof.
  unfold get_translation_unit, find_all_references, ClangParser_init. simpl.
  rewrite lookup_empty. repeat split.
  apply split_keeps_no_space, replace_space_no_space.
Qed.

Lemma gxx_output_flags :
  get_system_includes gxx_output = [""; "-I/usr/include/c++/5"; "-I/usr/include"; ""].
Proof. vm_compute. reflexivity. Qed.

(** ** Witnesses *)

Lemma classification_follows_referenced_witness :
  get_ast_node_id (callback_cursor (mkNode f_decl_data []))
  = get_ast_node_id (callback_cursor (mkNode (f_use_data "/src/b.cpp" 7 5 61) [])).
Proof.
  destruct (classification_follows_referenced
              (callback_cursor (mkNode f_decl_data []))
              (callback_cursor (mkNode (f_use_data "/src/b.cpp" 7 5 61) [])) f_decl)
    as [Hsame _].
  - intros H. vm_compute in H. discriminate H.
  - intros H. vm_compute in H. discriminate H.
  - reflexivity.
  - reflexivity.
  - exact Hsame.
Defined.

Lemma dependent_classification_ignores_referenced_witness :
  get_ast_node_id member_in_call = get_ast_node_id member_referring.
Proof.
  apply (dependent_classification_ignores_referenced member_in_call member_referring);
    reflexivity.
Defined.

Lemma reported_locations_hash_witness :
  exists h,
    ImmutableSourceLocation.hash (fun _ => 7%Z) (fun n => n)
      (ImmutableSourceLocation.init (at_file "/src/b.cpp" 7 5 61)) = Ok h.
Proof.
  destruct (find_all_references two_units "/src/a.cpp" 1 6) as [r|e] eqn:Hrun.
  - apply (reported_locations_hash (fun _ => 7%Z) (fun n => n) two_units "/src/a.cpp" 1 6 r
             (ImmutableSourceLocation.init (at_file "/src/b.cpp" 7 5 61)) Hrun).
    vm_compute in Hrun. injection Hrun as <-.
    apply list_elem_of_In. vm_compute. tauto.
  - vm_compute in Hrun. discriminate.
Defined.

Lemma more_units_more_references_witness :
  exists s s',
    find_all_references absolute_key_store "/src/a.cpp" 1 6 = Ok (PySet s)
    /\ find_all_references
         (set_tunits absolute_key_store (<["/src/b.cpp" := unit_b]> (tunits absolute_key_store)))
         "/src/a.cpp" 1 6 = Ok (PySet s')
    /\ s ⊆ s'.
Proof.
  apply (more_units_more_references absolute_key_store "/src/b.cpp" unit_b unit_a
           "/src/a.cpp" 1 6); vm_compute; reflexivity.
Defined.

Lemma run_twice_keeps_last_witness :
  exists first second,
    run parse_only_a fresh_store "/src/a.cpp" "a.cpp" [] "/src" = Ok first
    /\ run parse_only_a first "/src/a.cpp" "a.cpp" ["-O2"] "/src" = Ok second
    /\ run parse_only_a fresh_store "/src/a.cpp" "a.cpp" ["-O2"] "/src" = Ok second.
Proof.
  eexists. eexists. split; [reflexivity |]. split; [reflexivity |].
  apply (run_twice_keeps_last parse_only_a fresh_store
           (set_tunits fresh_store (<["a.cpp" := unit_a]> (tunits fresh_store))) _
           "/src/a.cpp" "/src/a.cpp" "a.cpp" [] ["-O2"] "/src" "/src" unit_a);
    reflexivity.
Defined.


Lemma load_from_disk_success_covers_every_ast_file_witness :
  "/src/a.cpp" ∈ dom (tunits (snd (load_from_disk fresh_store "/idx"
     (snd (save_to_disk (fun _ => true) absolute_key_store "/idx" empty_disk))))).
Proof.
  apply (load_from_disk_success_covers_every_ast_file fresh_store "/idx"
           (snd (save_to_disk (fun _ => true) absolute_key_store "/idx" empty_disk))
           "/idx/src/a.cpp.ast" "/idx/src/" "a.cpp.ast").
  - vm_compute. reflexivity.
  - eexists. vm_compute. reflexivity.
  - reflexivity.
  - reflexivity.
  - reflexivity.
Defined.
